(** * ydiff: normalisation, ignore-key pruning, empty-key pruning and diff

    A shallow embedding of [library/ydiff.py] (class [YdiffDict] and [main]).

    Python values are embedded as a closed tree type.  The leaves are the
    hashable scalars that a YAML document loads to ([None], [bool], [int],
    [str]); floats and timestamps are left out because their [str()]
    rendering is outside the embedding, and tuples because they only arise
    from Python-specific YAML tags.  A [dict] is an association list in
    insertion order whose keys are scalars; [d[k] = v] and [d[k]] are
    [dict_set] and [dict_get].  Python 2 iterates a dictionary in an
    unspecified order, which [yaml.dump] hides by sorting the keys; the
    statements below read dictionaries through [dict_get], except where an
    example displays a literal result.

    The module is written against Python 2 ([basestring], [str.decode]):
    [obj.items()] is a list snapshot, so deleting from [obj] while looping
    over it is allowed.

    The PyYAML functions [yaml.load] and [yaml.dump] are a library outside
    the repository; the code that calls them is stated over an arbitrary
    loader and dumper (Section [Codec]). *)

From Stdlib Require Import List String Ascii ZArith Bool Lia DecimalString.
Import ListNotations.
Local Open Scope string_scope.
Local Open Scope Z_scope.

(** ** Python values *)

Inductive atom : Type :=
| ANone
| ABool (b : bool)
| AInt (z : Z)
| AStr (s : string).

#[local] Unset Elimination Schemes.
Inductive pyval : Type :=
| PAtom (a : atom)
| PList (l : list pyval)
| PDict (d : list (atom * pyval)).
#[local] Set Elimination Schemes.

Notation pydict := (list (atom * pyval)).
Notation PNone := (PAtom ANone).
Notation PStr s := (PAtom (AStr s)).
Notation PInt z := (PAtom (AInt z)).
Notation PBool b := (PAtom (ABool b)).

(** [isinstance(v, (dict, list))] *)
Definition is_container (v : pyval) : bool :=
  match v with
  | PAtom _ => false
  | PList _ | PDict _ => true
  end.

(** [str(obj)] on a scalar. *)
Definition str_of_Z (z : Z) : string := NilZero.string_of_int (Z.to_int z).

Definition str (a : atom) : string :=
  match a with
  | ANone => "None"
  | ABool true => "True"
  | ABool false => "False"
  | AInt z => str_of_Z z
  | AStr s => s
  end.

(** ** Equality ([==]) and membership ([in]) *)

Definition Z_of_bool (b : bool) : Z := if b then 1 else 0.

(** [==] on scalars; [bool] is a subclass of [int], so [True == 1]. *)
Definition atom_eqb (a b : atom) : bool :=
  match a, b with
  | ANone, ANone => true
  | ABool x, ABool y => Bool.eqb x y
  | ABool x, AInt z | AInt z, ABool x => Z_of_bool x =? z
  | AInt x, AInt y => x =? y
  | AStr x, AStr y => String.eqb x y
  | _, _ => false
  end.

(** [d[k]]: [None] stands for [KeyError]. *)
Fixpoint dict_get (d : pydict) (k : atom) : option pyval :=
  match d with
  | [] => None
  | (k', v) :: rest => if atom_eqb k' k then Some v else dict_get rest k
  end.

(** [d[k] = v]: an existing key keeps its place, a new key goes last. *)
Fixpoint dict_set (d : pydict) (k : atom) (v : pyval) : pydict :=
  match d with
  | [] => [(k, v)]
  | (k', v') :: rest =>
      if atom_eqb k' k then (k', v) :: rest else (k', v') :: dict_set rest k v
  end.

(** [dict(pairs)]: later pairs overwrite earlier ones. *)
Definition dict_of (pairs : pydict) : pydict :=
  fold_left (fun d kv => dict_set d (fst kv) (snd kv)) pairs [].

(** [a == b]: lists compare element-wise, dictionaries as finite maps
    (same size, and every key of [a] is bound in [b] to an equal value). *)
Fixpoint py_eq (a b : pyval) {struct a} : bool :=
  match a, b with
  | PAtom x, PAtom y => atom_eqb x y
  | PList xs, PList ys =>
      (fix list_eq (xs ys : list pyval) {struct xs} : bool :=
         match xs, ys with
         | [], [] => true
         | x :: xs', y :: ys' => py_eq x y && list_eq xs' ys'
         | _, _ => false
         end) xs ys
  | PDict xs, PDict ys =>
      (List.length xs =? List.length ys)%nat &&
      (fix items_eq (xs : pydict) {struct xs} : bool :=
         match xs with
         | [] => true
         | (k, v) :: xs' =>
             match dict_get ys k with
             | Some w => py_eq v w && items_eq xs'
             | None => false
             end
         end) xs
  | _, _ => false
  end.

(** [x in seq]. *)
Definition py_in (x : pyval) (seq : list pyval) : bool :=
  existsb (fun e => py_eq e x) seq.

(** ** Class constants *)

(** [__empty_dict_vals = ['', '[]', '{}', None, [], {}]] *)
Definition empty_dict_vals : list pyval :=
  [PStr ""; PStr "[]"; PStr "{}"; PNone; PList []; PDict []].

(** [__empty_list_vals = ['[]', '{}', None, [], {}]] *)
Definition empty_list_vals : list pyval :=
  [PStr "[]"; PStr "{}"; PNone; PList []; PDict []].

(** The tuple [('None', 'null', 'Null', 'NULL')] of [__normalize]. *)
Definition null_tokens : list pyval :=
  [PStr "None"; PStr "null"; PStr "Null"; PStr "NULL"].

(** ** [YdiffDict.__normalize] *)

(** [__normalize] on a scalar, as it is applied to dictionary keys. *)
Definition normalize_key (key : atom) : atom :=
  if py_in (PAtom key) null_tokens then ANone else AStr (str key).

Fixpoint normalize (obj : pyval) : pyval :=
  if py_in obj null_tokens then PNone
  else
    match obj with
    | PList l => PList (map normalize l)
    | PDict d =>
        PDict (dict_of
                 ((fix items (l : pydict) : pydict :=
                     match l with
                     | [] => []
                     | (key, val) :: rest =>
                         (normalize_key key, normalize val) :: items rest
                     end) d))
    | PAtom a => PStr (str a)
    end.

(** ** Exceptions *)

Inductive exn : Type :=
| UnboundLocalError (name : string)   (* a local read before it is bound *)
| FailJson.                           (* [module.fail_json]: the run ends *)

Inductive result (A : Type) : Type :=
| Ok (a : A)
| Raise (e : exn).
Arguments Ok {A} a.
Arguments Raise {A} e.

Definition bind {A B : Type} (m : result A) (f : A -> result B) : result B :=
  match m with
  | Ok a => f a
  | Raise e => Raise e
  end.

Notation "x <- m ;; k" := (bind m (fun x => k))
  (at level 61, m at next level, right associativity).

(** ** [YdiffDict.del_ignore_keys]

    [result_dict] starts as [dict()] and is what every path returns.  The
    [try]/[except KeyError] around the dictionary body only catches the
    failed lookup [del_dict[key]]: nothing else in the body raises
    [KeyError].  In the list branch the loop runs over
    [reversed(range(len(src_dict)))], so the last element is handled first;
    its keep operation reads the local [key], which no statement of that
    call has bound. *)
Fixpoint del_ignore_keys (src_dict del_dict : pyval) {struct src_dict}
  : result pyval :=
  match src_dict, del_dict with
  | PDict src, PDict del =>
      (fix items (l : pydict) (result_dict : pydict) {struct l}
         : result pyval :=
         match l with
         | [] => Ok (PDict result_dict)
         | (key, src_val) :: rest =>
             match dict_get del key with
             | Some del_val =>
                 if is_container src_val && is_container del_val then
                   r <- del_ignore_keys src_val del_val ;;
                   items rest (dict_set result_dict key r)
                 else if py_in del_val empty_dict_vals then
                   items rest result_dict
                 else if py_eq del_val src_val then
                   items rest result_dict
                 else
                   items rest (dict_set result_dict key src_val)
             | None => items rest (dict_set result_dict key src_val)
             end
         end) src []
  | PList src, PList [del_val] =>
      result_dict <-
        (fix loop (l : list pyval) (idx : Z) {struct l} : result pydict :=
           match l with
           | [] => Ok []
           | src_val :: rest =>
               result_dict <- loop rest (idx + 1) ;;
               if is_container src_val && is_container del_val then
                 r <- del_ignore_keys src_val del_val ;;
                 Ok (dict_set result_dict (AInt idx) r)
               else if py_in del_val empty_list_vals then
                 Ok result_dict
               else if py_eq del_val src_val then
                 Ok result_dict
               else
                 Raise (UnboundLocalError "key")
           end) src 0 ;;
      Ok (PDict result_dict)
  | _, _ => Ok (PDict [])
  end.

(** ** [YdiffDict.del_empty_keys]

    The function prunes [obj] in place and returns it.  A nested container
    [val] is the object stored in [obj], so after the recursive call the
    entry of [obj] holds the pruned value whether or not it is deleted.
    Popping index [idx] while walking the indices downwards leaves the
    elements below [idx] where they were. *)
Fixpoint del_empty_keys (obj : pyval) : pyval :=
  match obj with
  | PDict d =>
      PDict
        ((fix items (l : pydict) : pydict :=
            match l with
            | [] => []
            | (key, val) :: rest =>
                let val :=
                  if is_container val then del_empty_keys val else val in
                if py_in val empty_dict_vals then items rest
                else (key, val) :: items rest
            end) d)
  | PList l =>
      PList
        ((fix elems (l : list pyval) : list pyval :=
            match l with
            | [] => []
            | val :: rest =>
                let val :=
                  if is_container val then del_empty_keys val else val in
                if py_in val empty_list_vals then elems rest
                else val :: elems rest
            end) l)
  | PAtom _ => obj
  end.

(** ** Text codec and [main] *)

(** The input of [yaml2dict]: text, or an already built dictionary. *)
Inductive yaml_input : Type :=
| FromText (s : string)
| FromDict (d : pydict).

(** The dictionary that [module.exit_json] receives. *)
Record diff_result : Type := mk_diff_result {
  before : string;
  after : string;
  changed : bool
}.

Section Codec.

(** [yaml.load]: [None] stands for [yaml.YAMLError]. *)
Variable yaml_load : string -> option pyval.
(** [yaml.dump(obj, default_flow_style=False, allow_unicode=True)] *)
Variable yaml_dump : pyval -> string.

(** [__dict_to_yaml_str] *)
Definition dict_to_yaml_str (obj : pyval) : string :=
  yaml_dump (normalize obj).

(** [__yaml_str_to_dict]; the error handler is [module.fail_json]. *)
Definition yaml_str_to_dict (s : string) : result pyval :=
  match yaml_load s with
  | Some obj =>
      let obj := normalize obj in
      match obj with
      | PNone => Ok (PDict [])
      | _ => Ok obj
      end
  | None => Raise FailJson
  end.

Definition dict2yaml (obj : pyval) : string := dict_to_yaml_str obj.

Definition yaml2dict (input : yaml_input) : result pyval :=
  match input with
  | FromDict d => yaml_str_to_dict (dict_to_yaml_str (PDict d))
  | FromText s => yaml_str_to_dict s
  end.

(** [main], from "Convert to normalized dicts" on; [source] and [target]
    are the texts returned by [eval_input], [ignore_keys] the dictionary
    that passed [assert_ignore_keys]. *)
Definition main (source target : string) (ignore_keys : pydict)
           (ignore_empty : bool) : result diff_result :=
  ignore_keys <- yaml2dict (FromDict ignore_keys) ;;
  source <- yaml2dict (FromText source) ;;
  target <- yaml2dict (FromText target) ;;
  source <- del_ignore_keys source ignore_keys ;;
  target <- del_ignore_keys target ignore_keys ;;
  let target := if ignore_empty then del_empty_keys target else target in
  let source := dict2yaml source in
  let target := dict2yaml target in
  Ok {| before := target;
        after := source;
        changed := negb (String.eqb source target) |}.

End Codec.

(** ** A fragment of PyYAML

    [yaml.load] and [yaml.dump] on the one-line documents used below: a
    plain scalar made of letters, a null or boolean word, or an empty flow
    collection.  A root scalar is dumped with the document end marker
    ["..."].  Other documents are not covered: [load] gives no value and
    [dump] the empty text for them, and nothing below relies on that. *)
Module PyYAML.

Definition newline : string := String (ascii_of_nat 10) "".

Definition is_letter (c : ascii) : bool :=
  let n := nat_of_ascii c in
  ((65 <=? n) && (n <=? 90) || (97 <=? n) && (n <=? 122))%nat.

Fixpoint all_letters (s : string) : bool :=
  match s with
  | EmptyString => true
  | String c rest => is_letter c && all_letters rest
  end.

Definition mem (s : string) (l : list string) : bool :=
  existsb (String.eqb s) l.

Definition null_words : list string := [""; "~"; "null"; "Null"; "NULL"].
Definition true_words : list string :=
  ["yes"; "Yes"; "YES"; "true"; "True"; "TRUE"; "on"; "On"; "ON"].
Definition false_words : list string :=
  ["no"; "No"; "NO"; "false"; "False"; "FALSE"; "off"; "Off"; "OFF"].

(** A word that loads as a [str]. *)
Definition plain_str (w : string) : bool :=
  all_letters w && negb (mem w (null_words ++ true_words ++ false_words)).

Definition document_end : string := newline ++ "..." ++ newline.

(** The text of a one-line document, without its line break and marker. *)
Fixpoint chomp (s : string) : string :=
  match s with
  | EmptyString => EmptyString
  | String c rest =>
      if String.eqb s newline || String.eqb s document_end then EmptyString
      else String c (chomp rest)
  end.

Definition load (s : string) : option pyval :=
  let w := chomp s in
  if mem w null_words then Some PNone
  else if mem w true_words then Some (PBool true)
  else if mem w false_words then Some (PBool false)
  else if String.eqb w "{}" then Some (PDict [])
  else if String.eqb w "[]" then Some (PList [])
  else if plain_str w then Some (PStr w)
  else None.

Definition dump (v : pyval) : string :=
  match v with
  | PNone => "null" ++ document_end
  | PDict [] => "{}" ++ newline
  | PList [] => "[]" ++ newline
  | PStr s => if plain_str s then s ++ document_end else ""
  | _ => ""
  end.

End PyYAML.

(** ** Notions used in the statements *)

(** What [__yaml_str_to_dict] makes of the normalized object: a [None]
    becomes the empty dictionary. *)
Definition top_level (obj : pyval) : pyval :=
  match obj with
  | PNone => PDict []
  | _ => obj
  end.

(** Python dictionaries bind a key once. *)
Fixpoint unique_keys (d : pydict) : Prop :=
  match d with
  | [] => True
  | (k, _) :: rest => dict_get rest k = None /\ unique_keys rest
  end.

(** The two shape pairings on which [del_ignore_keys] has a loop. *)
Definition pruning_applies (src_dict del_dict : pyval) : bool :=
  match src_dict, del_dict with
  | PDict _, PDict _ => true
  | PList _, PList [_] => true
  | _, _ => false
  end.

(** The loop of the dictionary branch of [del_ignore_keys], by name. *)
Definition dict_loop (del : pydict) : pydict -> pydict -> result pyval :=
  fix items (l : pydict) (result_dict : pydict) {struct l} : result pyval :=
    match l with
    | [] => Ok (PDict result_dict)
    | (key, src_val) :: rest =>
        match dict_get del key with
        | Some del_val =>
            if is_container src_val && is_container del_val then
              r <- del_ignore_keys src_val del_val ;;
              items rest (dict_set result_dict key r)
            else if py_in del_val empty_dict_vals then
              items rest result_dict
            else if py_eq del_val src_val then
              items rest result_dict
            else
              items rest (dict_set result_dict key src_val)
        | None => items rest (dict_set result_dict key src_val)
        end
    end.

(** The loop of the list branch of [del_ignore_keys], by name. *)
Definition list_loop (del_val : pyval) : list pyval -> Z -> result pydict :=
  fix loop (l : list pyval) (idx : Z) {struct l} : result pydict :=
    match l with
    | [] => Ok []
    | src_val :: rest =>
        result_dict <- loop rest (idx + 1) ;;
        if is_container src_val && is_container del_val then
          r <- del_ignore_keys src_val del_val ;;
          Ok (dict_set result_dict (AInt idx) r)
        else if py_in del_val empty_list_vals then
          Ok result_dict
        else if py_eq del_val src_val then
          Ok result_dict
        else
          Raise (UnboundLocalError "key")
    end.

(** What the dictionary branch binds a key to, given the key's entry in
    [del_dict] and its value in [src_dict]. *)
Definition kept_value (del_entry : option pyval) (src_val : pyval)
  : option pyval :=
  match del_entry with
  | None => Some src_val
  | Some del_val =>
      if is_container src_val && is_container del_val then
        match del_ignore_keys src_val del_val with
        | Ok r => Some r
        | Raise _ => None
        end
      else if py_in del_val empty_dict_vals then None
      else if py_eq del_val src_val then None
      else Some src_val
  end.

(** The values of [__empty_dict_vals] and of [__empty_list_vals]. *)
Definition empty_in_dict (v : pyval) : Prop :=
  v = PNone \/ v = PStr "" \/ v = PStr "[]" \/ v = PStr "{}" \/
  v = PList [] \/ v = PDict [].





(** [__normalize] on an item of a dictionary. *)
Definition normalize_item (kv : atom * pyval) : atom * pyval :=
  (normalize_key (fst kv), normalize (snd kv)).

(** A leaf in the image of [__normalize]: [None], or a string other than
    the null tokens that YAML itself resolves. *)
Definition normal_atom (a : atom) : Prop :=
  match a with
  | ANone => True
  | AStr s => s <> "null" /\ s <> "Null" /\ s <> "NULL"
  | _ => False
  end.

(** A tree in the image of [__normalize]. *)
Fixpoint normal (v : pyval) : Prop :=
  match v with
  | PAtom a => normal_atom a
  | PList l =>
      (fix all (l : list pyval) : Prop :=
         match l with
         | [] => True
         | x :: rest => normal x /\ all rest
         end) l
  | PDict d =>
      unique_keys d /\
      (fix all (l : pydict) : Prop :=
         match l with
         | [] => True
         | (k, x) :: rest => normal_atom k /\ normal x /\ all rest
         end) d
  end.

(** An item of a normalized dictionary. *)
Definition normal_item (kv : atom * pyval) : Prop :=
  normal_atom (fst kv) /\ normal (snd kv).

(** Structural induction on trees, with the hypothesis on every element of
    a list and every value of a dictionary. *)
Section PyvalInduction.

Variable P : pyval -> Prop.
Hypothesis Hatom : forall a, P (PAtom a).
Hypothesis Hlist : forall l, Forall P l -> P (PList l).
Hypothesis Hdict :
  forall d, Forall (fun kv => P (snd kv)) d -> P (PDict d).

Fixpoint pyval_ind (v : pyval) : P v :=
  match v with
  | PAtom a => Hatom a
  | PList l =>
      Hlist l
        ((fix elems (l : list pyval) : Forall P l :=
            match l with
            | [] => Forall_nil P
            | x :: rest => Forall_cons x (pyval_ind x) (elems rest)
            end) l)
  | PDict d =>
      Hdict d
        ((fix items (l : pydict) : Forall (fun kv => P (snd kv)) l :=
            match l with
            | [] => Forall_nil _
            | kv :: rest =>
                Forall_cons kv (pyval_ind (snd kv)) (items rest)
            end) d)
  end.

End PyvalInduction.

(** ** Notions used for the further properties *)

(** The number of nodes of a tree. *)
Fixpoint tree_size (v : pyval) : nat :=
  match v with
  | PAtom _ => 1
  | PList l => S (list_sum (map tree_size l))
  | PDict d =>
      S ((fix items (l : pydict) : nat :=
            match l with
            | [] => O
            | (_, val) :: rest => (tree_size val + items rest)%nat
            end) d)
  end.

(** A tree in which no dictionary holds a value of [__empty_dict_vals]
    and no list an element of [__empty_list_vals]. *)
Fixpoint pruned (v : pyval) : Prop :=
  match v with
  | PAtom _ => True
  | PList l =>
      (fix all (l : list pyval) : Prop :=
         match l with
         | [] => True
         | x :: rest =>
             pruned x /\ py_in x empty_list_vals = false /\ all rest
         end) l
  | PDict d =>
      (fix all (l : pydict) : Prop :=
         match l with
         | [] => True
         | (_, x) :: rest =>
             pruned x /\ py_in x empty_dict_vals = false /\ all rest
         end) d
  end.

(** A tree without lists. *)
Fixpoint list_free (v : pyval) : Prop :=
  match v with
  | PAtom _ => True
  | PList _ => False
  | PDict d =>
      (fix all (l : pydict) : Prop :=
         match l with
         | [] => True
         | (_, x) :: rest => list_free x /\ all rest
         end) d
  end.

(** A tree all of whose dictionaries bind a key once. *)
Fixpoint well_keyed (v : pyval) : Prop :=
  match v with
  | PAtom _ => True
  | PList l =>
      (fix all (l : list pyval) : Prop :=
         match l with
         | [] => True
         | x :: rest => well_keyed x /\ all rest
         end) l
  | PDict d =>
      unique_keys d /\
      (fix all (l : pydict) : Prop :=
         match l with
         | [] => True
         | (_, x) :: rest => well_keyed x /\ all rest
         end) d
  end.

(** The items that the dictionary branch of [del_ignore_keys] keeps, in
    the order of [src_dict]. *)
Definition kept_item (del : pydict) (kv : atom * pyval) : pydict :=
  match kept_value (dict_get del (fst kv)) (snd kv) with
  | Some x => [(fst kv, x)]
  | None => []
  end.

Definition kept_items (del src : pydict) : pydict :=
  flat_map (kept_item del) src.

(** An element of a list that reaches the keep operation of the list
    branch under the pattern [del_val]. *)
Definition reaches_keep (del_val src_val : pyval) : bool :=
  negb (is_container src_val && is_container del_val) &&
  negb (py_in del_val empty_list_vals) &&
  negb (py_eq del_val src_val).

(** A tree of ordinary strings: every leaf and key is a string other than
    the four null tokens, and dictionaries bind each key once. *)
Definition text_atom (a : atom) : Prop :=
  match a with
  | AStr s => py_in (PStr s) null_tokens = false
  | _ => False
  end.

Fixpoint text_tree (v : pyval) : Prop :=
  match v with
  | PAtom a => text_atom a
  | PList l =>
      (fix all (l : list pyval) : Prop :=
         match l with
         | [] => True
         | x :: rest => text_tree x /\ all rest
         end) l
  | PDict d =>
      unique_keys d /\
      (fix all (l : pydict) : Prop :=
         match l with
         | [] => True
         | (k, x) :: rest => text_atom k /\ text_tree x /\ all rest
         end) d
  end.

(** [isinstance(v, dict)] *)
Definition is_dict (v : pyval) : bool :=
  match v with
  | PDict _ => true
  | _ => false
  end.

(** ** The Ansible module around [main]

    The file system, the shell and the YAML library are outside the
    repository; the module functions are stated over them (Section
    [Host]).  [module.exit_json] and [module.fail_json] end the run. *)

(** [choices=['string', 'file', 'command']] *)
Inductive input_type : Type :=
| TypeString
| TypeFile
| TypeCommand.

(** [module.params] and [module.check_mode]. *)
Record ansible_module : Type := mk_module {
  param_source : string;
  param_target : string;
  param_source_type : input_type;
  param_target_type : input_type;
  param_diff_ignore_keys : pyval;
  param_diff_ignore_empty : bool;
  check_mode : bool
}.

(** How a run of the module ends. *)
Inductive module_end : Type :=
| ExitJson (r : diff_result)   (* exit_json(diff=..., changed=...) *)
| ExitSkipped (msg : string)   (* exit_json(changed=False, msg=..., skipped=True) *)
| FailJsonMsg (msg : string)   (* fail_json(msg=...) *)
| Raised (e : exn).            (* the YAML failure, or an uncaught exception *)

(** A step of the run: it goes on with a value, or the run has ended. *)
Inductive step (A : Type) : Type :=
| Go (a : A)
| Stop (e : module_end).
Arguments Go {A} a.
Arguments Stop {A} e.

Definition and_then {A B : Type} (m : step A) (f : A -> step B) : step B :=
  match m with
  | Go a => f a
  | Stop e => Stop e
  end.

Notation "x <~ m ;; k" := (and_then m (fun x => k))
  (at level 61, m at next level, right associativity).

(** ['source'] or ['target'], the [direction] of [eval_input]. *)
Inductive direction : Type :=
| Source
| Target.

Definition direction_name (d : direction) : string :=
  match d with
  | Source => "source"
  | Target => "target"
  end.

Definition input_data_of (d : direction) (module : ansible_module) : string :=
  match d with
  | Source => param_source module
  | Target => param_target module
  end.

Definition input_type_of (d : direction) (module : ansible_module)
  : input_type :=
  match d with
  | Source => param_source_type module
  | Target => param_target_type module
  end.

(** [is_str]: under Python 2 each of its four tests ([basestring],
    [unicode], [basestring] again, [bytes]) holds for a string and for
    nothing else of the embedding. *)
Definition isinstance_str (var : pyval) : bool :=
  match var with
  | PStr _ => true
  | _ => false
  end.

Definition is_str (var : pyval) : bool :=
  if isinstance_str var then true
  else if isinstance_str var then true
  else if isinstance_str var then true
  else if isinstance_str var then true
  else false.

(** [str(type(v))] (Python 2). *)
Definition str_of_type (v : pyval) : string :=
  match v with
  | PNone => "<type 'NoneType'>"
  | PBool _ => "<type 'bool'>"
  | PInt _ => "<type 'int'>"
  | PStr _ => "<type 'str'>"
  | PList _ => "<type 'list'>"
  | PDict _ => "<type 'dict'>"
  end.

(** [assert_type_command] *)
Definition assert_type_command (module : ansible_module) : step unit :=
  _ <~ (match param_source_type module with
        | TypeCommand =>
            if check_mode module then
              Stop (ExitSkipped
                      "This module does not support check mode when source_type is 'command'.")
            else Go tt
        | _ => Go tt
        end) ;;
  match param_target_type module with
  | TypeCommand =>
      if check_mode module then
        Stop (ExitSkipped
                "This module does not support check mode when target_type is 'command'.")
      else Go tt
  | _ => Go tt
  end.

(** [assert_ignore_keys] *)
Definition assert_ignore_keys (module : ansible_module) : step unit :=
  let ignore_keys := param_diff_ignore_keys module in
  _ <~ (if is_str ignore_keys then
          Stop (FailJsonMsg "Invalid yaml for diff_ignore_keys")
        else Go tt) ;;
  if negb (is_dict ignore_keys) then
    Stop (FailJsonMsg (str_of_type ignore_keys))
  else Go tt.

Section Host.

(** [os.path.exists], [os.access(path, os.R_OK)], [os.path.isdir] *)
Variable path_exists : string -> bool.
Variable access_read : string -> bool.
Variable path_isdir : string -> bool.
(** [open(path, 'rt').read().decode('UTF-8')] *)
Variable read_file : string -> string.
(** [shell_exec]: return code, standard output, standard error. *)
Variable shell_exec : string -> Z * string * string.
Variable yaml_load : string -> option pyval.
Variable yaml_dump : pyval -> string.

(** The checks of [assert_type_file] on one path. *)
Definition assert_file (name path : string) : step unit :=
  if negb (path_exists path) then
    Stop (FailJsonMsg (name ++ " " ++ path ++ " not found"))
  else if negb (access_read path) then
    Stop (FailJsonMsg (name ++ " " ++ path ++ " not readable"))
  else if path_isdir path then
    Stop (FailJsonMsg
            ("ydiff does not support recursive diff of directory: " ++ path))
  else Go tt.

(** [assert_type_file] *)
Definition assert_type_file (module : ansible_module) : step unit :=
  _ <~ (match param_source_type module with
        | TypeFile => assert_file "source" (param_source module)
        | _ => Go tt
        end) ;;
  match param_target_type module with
  | TypeFile => assert_file "target" (param_target module)
  | _ => Go tt
  end.

(** [eval_input] *)
Definition eval_input (d : direction) (module : ansible_module)
  : step string :=
  let input_data := input_data_of d module in
  match input_type_of d module with
  | TypeFile => Go (read_file input_data)
  | TypeCommand =>
      let '(ret, stdout, stderr) := shell_exec input_data in
      if negb (ret =? 0) then
        Stop (FailJsonMsg
                (direction_name d ++ " command failed: " ++ stderr))
      else Go stdout
  | TypeString => Go input_data
  end.

(** The whole of [main]: the assertions, the two inputs, then the diff.
    After [assert_ignore_keys] the parameter is a dictionary. *)
Definition run_module (module : ansible_module) : module_end :=
  let run :=
    _ <~ assert_type_command module ;;
    _ <~ assert_type_file module ;;
    _ <~ assert_ignore_keys module ;;
    source <~ eval_input Source module ;;
    target <~ eval_input Target module ;;
    match param_diff_ignore_keys module with
    | PDict ignore_keys =>
        match main yaml_load yaml_dump source target ignore_keys
                   (param_diff_ignore_empty module) with
        | Ok r => Stop (ExitJson r)
        | Raise e => Stop (Raised e)
        end
    | other => Stop (FailJsonMsg (str_of_type other))
    end in
  match run with
  | Go e => e
  | Stop e => e
  end.

End Host.

(** ** [SortedDict]

    The constructor takes keyword arguments, which are named by strings;
    unpacking a dictionary [value] as keyword arguments raises [TypeError]
    when a key is not a string or is the name of the positional parameter
    [self].  The class
    is an ordered dictionary: its items stay in the order in which
    [__init__] enters them.  The recursion follows the values of the
    sorted items, so the embedding counts the nesting it may still enter
    ([fuel]); a dictionary nested deeper than that gives [NoFuel]. *)

Definition kwargs : Type := list (string * pyval).

(** [sorted(kwargs.items())]: items compare by their keys first, and the
    keys of a dictionary differ. *)
Fixpoint insert_sorted (item : string * pyval) (l : kwargs) : kwargs :=
  match l with
  | [] => [item]
  | item' :: rest =>
      if String.leb (fst item) (fst item') then item :: l
      else item' :: insert_sorted item rest
  end.

Definition sorted_items (items : kwargs) : kwargs :=
  fold_right insert_sorted [] items.

(** Unpacking [value] as keyword arguments: [None] stands for
    [TypeError]. *)
Fixpoint keywords (value : pydict) : option kwargs :=
  match value with
  | [] => Some []
  | (AStr name, v) :: rest =>
      if String.eqb name "self" then None
      else
        match keywords rest with
        | Some kw => Some ((name, v) :: kw)
        | None => None
        end
  | _ => None
  end.

Inductive sorted_result : Type :=
| SortedTo (self : pydict)
| TypeError
| NoFuel.

(** [SortedDict.__init__] *)
Fixpoint SortedDict (fuel : nat) (kw : kwargs) : sorted_result :=
  match fuel with
  | O => NoFuel
  | S fuel =>
      (fix loop (items : kwargs) (self : pydict) {struct items}
         : sorted_result :=
         match items with
         | [] => SortedTo self
         | (key, value) :: rest =>
             match value with
             | PDict d =>
                 match keywords d with
                 | None => TypeError
                 | Some kw' =>
                     match SortedDict fuel kw' with
                     | SortedTo sd =>
                         loop rest (dict_set self (AStr key) (PDict sd))
                     | other => other
                     end
                 end
             | _ => loop rest (dict_set self (AStr key) value)
             end
         end) (sorted_items kw) []
  end.

(** The loop of [SortedDict.__init__], by name. *)
Definition sorted_loop (fuel : nat) : kwargs -> pydict -> sorted_result :=
  fix loop (items : kwargs) (self : pydict) {struct items} : sorted_result :=
    match items with
    | [] => SortedTo self
    | (key, value) :: rest =>
        match value with
        | PDict d =>
            match keywords d with
            | None => TypeError
            | Some kw' =>
                match SortedDict fuel kw' with
                | SortedTo sd =>
                    loop rest (dict_set self (AStr key) (PDict sd))
                | other => other
                end
            end
        | _ => loop rest (dict_set self (AStr key) value)
        end
    end.

(** How deep dictionaries are nested as values of dictionaries. *)
Fixpoint dict_depth (v : pyval) : nat :=
  match v with
  | PDict d =>
      S ((fix items (l : pydict) : nat :=
            match l with
            | [] => O
            | (_, x) :: rest => Nat.max (dict_depth x) (items rest)
            end) d)
  | _ => O
  end.

Fixpoint kwargs_depth (kw : kwargs) : nat :=
  match kw with
  | [] => O
  | (_, x) :: rest => Nat.max (dict_depth x) (kwargs_depth rest)
  end.

(** The keys of a dictionary are strings in ascending order. *)
Fixpoint ascending (d : pydict) : Prop :=
  match d with
  | [] => True
  | (AStr a, _) :: rest =>
      match rest with
      | (AStr b, _) :: _ => String.leb a b = true
      | [] => True
      | _ => False
      end /\ ascending rest
  | _ => False
  end.

(** A dictionary whose keys are ascending, and so are those of every
    dictionary reached through values of dictionaries. *)
Fixpoint sorted_tree (v : pyval) : Prop :=
  match v with
  | PDict d =>
      ascending d /\
      (fix all (l : pydict) : Prop :=
         match l with
         | [] => True
         | (_, x) :: rest => sorted_tree x /\ all rest
         end) d
  | _ => True
  end.

(** Keyword arguments whose names ascend. *)
Fixpoint names_ascending (l : kwargs) : Prop :=
  match l with
  | [] => True
  | (a, _) :: rest =>
      match rest with
      | (b, _) :: _ => String.leb a b = true
      | [] => True
      end /\ names_ascending rest
  end.

(** ** A fragment of PyYAML with block mappings

    [yaml.load] and [yaml.dump(obj, default_flow_style=False)] on the
    documents of [PyYAML] and on block mappings of one level: one line
    [key: value] per item, where the key is a plain string and the value
    a one-line document of [PyYAML].  [yaml.dump] writes the items sorted
    by key, whatever their order in the dictionary; [yaml.load] binds the
    keys in the order of the lines.  Other documents are not covered, as
    in [PyYAML]. *)
Module PyYAMLBlock.

(** The lines of a text; [line] is the line read so far. *)
Fixpoint lines (s line : string) : list string :=
  match s with
  | EmptyString => if String.eqb line EmptyString then [] else [line]
  | String c rest =>
      if Ascii.eqb c (ascii_of_nat 10) then line :: lines rest EmptyString
      else lines rest (line ++ String c EmptyString)
  end.

(** A line [key: value], split at its first colon. *)
Fixpoint split_item (line : string) : option (string * string) :=
  match line with
  | EmptyString => None
  | String c rest =>
      if Ascii.eqb c ":" then
        match rest with
        | String c' value =>
            if Ascii.eqb c' " " then Some (EmptyString, value) else None
        | EmptyString => None
        end
      else
        match split_item rest with
        | Some (key, value) => Some (String c key, value)
        | None => None
        end
  end.

Definition load_item (line : string) : option (atom * pyval) :=
  match split_item line with
  | Some (key, value) =>
      if PyYAML.plain_str key then
        match PyYAML.load value with
        | Some v => Some (AStr key, v)
        | None => None
        end
      else None
  | None => None
  end.

Fixpoint load_items (ls : list string) : option pydict :=
  match ls with
  | [] => Some []
  | line :: rest =>
      match load_item line, load_items rest with
      | Some item, Some items => Some (item :: items)
      | _, _ => None
      end
  end.

Definition load (s : string) : option pyval :=
  match PyYAML.load s with
  | Some v => Some v
  | None =>
      match lines s EmptyString with
      | [] => None
      | ls =>
          match load_items ls with
          | Some items => Some (PDict (dict_of items))
          | None => None
          end
      end
  end.

(** The text of the value of an item. *)
Definition dump_value (v : pyval) : option string :=
  match v with
  | PNone => Some "null"
  | PStr s => if PyYAML.plain_str s then Some s else None
  | PList [] => Some "[]"
  | PDict [] => Some "{}"
  | _ => None
  end.

Fixpoint dump_items (items : kwargs) : option string :=
  match items with
  | [] => Some EmptyString
  | (key, v) :: rest =>
      match dump_value v, dump_items rest with
      | Some value, Some text =>
          if PyYAML.plain_str key
          then Some (key ++ ": " ++ value ++ PyYAML.newline ++ text)
          else None
      | _, _ => None
      end
  end.

(** The items of a dictionary whose keys are all strings. *)
Fixpoint string_items (d : pydict) : option kwargs :=
  match d with
  | [] => Some []
  | (AStr key, v) :: rest =>
      match string_items rest with
      | Some items => Some ((key, v) :: items)
      | None => None
      end
  | _ => None
  end.

Definition dump (v : pyval) : string :=
  match v with
  | PDict ((_ :: _) as d) =>
      match string_items d with
      | Some items =>
          match dump_items (sorted_items items) with
          | Some text => text
          | None => EmptyString
          end
      | None => EmptyString
      end
  | _ => PyYAML.dump v
  end.

End PyYAMLBlock.

(** * Properties *)

(** ** Scalars and dictionaries *)

Ltac bool_cases :=
  repeat match goal with
         | b : bool |- _ => destruct b
         end.

Lemma atom_eqb_refl (a : atom) : atom_eqb a a = true.
Proof.
  destruct a as [|b|z|s]; simpl.
  - reflexivity.
  - now destruct b.
  - apply Z.eqb_refl.
  - apply String.eqb_refl.
Qed.

Lemma atom_eqb_sym (a b : atom) : atom_eqb a b = atom_eqb b a.
Proof.
  destruct a, b; simpl; try reflexivity.
  - bool_cases; reflexivity.
  - apply Z.eqb_sym.
  - apply String.eqb_sym.
Qed.

Lemma atom_eqb_trans (a b c : atom) :
  atom_eqb a b = true -> atom_eqb b c = true -> atom_eqb a c = true.
Proof.
  destruct a, b, c; cbn [atom_eqb]; try discriminate;
    rewrite ?Z.eqb_eq, ?String.eqb_eq, ?Bool.eqb_true_iff;
    unfold Z_of_bool; intros; subst; bool_cases; congruence || lia.
Qed.

(** Looking up under an equal key gives the same answer. *)
Lemma dict_get_eqb (d : pydict) (k k' : atom) :
  atom_eqb k k' = true -> dict_get d k = dict_get d k'.
Proof.
  intros Hk. induction d as [|[k0 v0] d IH]; simpl; [reflexivity|].
  destruct (atom_eqb k0 k) eqn:E.
  - now rewrite (atom_eqb_trans _ _ _ E Hk).
  - destruct (atom_eqb k0 k') eqn:E'; [|exact IH].
    rewrite atom_eqb_sym in Hk.
    now rewrite (atom_eqb_trans _ _ _ E' Hk) in E.
Qed.

Lemma dict_get_set (d : pydict) (k k' : atom) (v : pyval) :
  dict_get (dict_set d k v) k' =
  if atom_eqb k k' then Some v else dict_get d k'.
Proof.
  induction d as [|[k0 v0] d IH]; simpl; [reflexivity|].
  destruct (atom_eqb k0 k) eqn:E; simpl.
  - destruct (atom_eqb k k') eqn:E'.
    + now rewrite (atom_eqb_trans _ _ _ E E').
    + destruct (atom_eqb k0 k') eqn:E0; [|reflexivity].
      rewrite atom_eqb_sym in E.
      now rewrite (atom_eqb_trans _ _ _ E E0) in E'.
  - rewrite IH. destruct (atom_eqb k0 k') eqn:E0; [|reflexivity].
    destruct (atom_eqb k k') eqn:E'; [|reflexivity].
    rewrite atom_eqb_sym in E'.
    now rewrite (atom_eqb_trans _ _ _ E0 E') in E.
Qed.

(** Binding a key that is not yet bound appends the pair. *)
Lemma dict_set_fresh (d : pydict) (k : atom) (v : pyval) :
  dict_get d k = None -> dict_set d k v = (d ++ [(k, v)])%list.
Proof.
  induction d as [|[k0 v0] d IH]; simpl; [reflexivity|].
  destruct (atom_eqb k0 k); [discriminate|].
  intros H. now rewrite IH.
Qed.

Lemma dict_get_app (d e : pydict) (k : atom) :
  dict_get (d ++ e)%list k =
  match dict_get d k with
  | Some v => Some v
  | None => dict_get e k
  end.
Proof.
  induction d as [|[k0 v0] d IH]; simpl; [reflexivity|].
  now destruct (atom_eqb k0 k).
Qed.

(** ** The emptiness sets *)

Lemma py_in_empty_dict_vals (v : pyval) :
  py_in v empty_dict_vals = true <->
  v = PNone \/ v = PStr "" \/ v = PStr "[]" \/ v = PStr "{}" \/
  v = PList [] \/ v = PDict [].
Proof.
  unfold py_in, empty_dict_vals. split.
  - destruct v as [[|b|z|s]|[|x l]|[|kv d]];
      cbn [existsb py_eq atom_eqb List.length Nat.eqb andb orb];
      try discriminate; auto 6.
    rewrite !orb_false_r, !orb_true_iff, !String.eqb_eq.
    intros [H|[H|H]]; subst; auto 6.
  - intros [H|[H|[H|[H|[H|H]]]]]; subst; reflexivity.
Qed.

Lemma py_in_empty_list_vals (v : pyval) :
  py_in v empty_list_vals = true <->
  v = PNone \/ v = PStr "[]" \/ v = PStr "{}" \/ v = PList [] \/ v = PDict [].
Proof.
  unfold py_in, empty_list_vals. split.
  - destruct v as [[|b|z|s]|[|x l]|[|kv d]];
      cbn [existsb py_eq atom_eqb List.length Nat.eqb andb orb];
      try discriminate; auto 6.
    rewrite !orb_false_r, !orb_true_iff, !String.eqb_eq.
    intros [H|H]; subst; auto 6.
  - intros [H|[H|[H|[H|H]]]]; subst; reflexivity.
Qed.

Lemma del_empty_keys_atom_or_container (v : pyval) :
  (if is_container v then del_empty_keys v else v) = del_empty_keys v.
Proof. now destruct v. Qed.

(** ** [__normalize] and the text codec *)

Lemma normalize_list (l : list pyval) :
  normalize (PList l) = PList (map normalize l).
Proof. reflexivity. Qed.

Lemma normalize_atom (a : atom) :
  normalize (PAtom a) = PAtom (normalize_key a).
Proof.
  unfold normalize_key.
  change (normalize (PAtom a))
    with (if py_in (PAtom a) null_tokens then PNone else PStr (str a)).
  now destruct (py_in (PAtom a) null_tokens).
Qed.

Lemma yaml_str_to_dict_loaded
  (load : string -> option pyval) (s : string) (obj : pyval) :
  load s = Some obj ->
  yaml_str_to_dict load s = Ok (top_level (normalize obj)).
Proof.
  intros Hload. unfold yaml_str_to_dict. rewrite Hload. cbv zeta.
  now destruct (normalize obj) as [[| | |]| |].
Qed.

(** [__yaml_str_to_dict] never returns [None]. *)
Lemma yaml_str_to_dict_not_none (load : string -> option pyval) (s : string) :
  yaml_str_to_dict load s <> Ok PNone.
Proof.
  unfold yaml_str_to_dict. destruct (load s) as [obj|]; [|discriminate].
  destruct (normalize obj) as [[| | |]| |]; discriminate.
Qed.




(** C4, on the code: a text that [yaml.load] reads as the empty document
    ([None]) is decoded to the string ['None'], not to the empty
    dictionary: [__normalize] has already turned [None] into ['None'] when
    [__yaml_str_to_dict] tests [obj is None]. *)
Theorem yaml_str_to_dict_empty_document
  (load : string -> option pyval) (s : string) :
  load s = Some PNone ->
  yaml_str_to_dict load s = Ok (PStr "None").
Proof.
  intros Hload. unfold yaml_str_to_dict. now rewrite Hload.
Qed.

Lemma yaml_str_to_dict_empty_document_witness :
  PyYAML.load "" = Some PNone /\
  yaml_str_to_dict PyYAML.load "" = Ok (PStr "None").
Proof.
  split; [reflexivity|].
  apply (yaml_str_to_dict_empty_document PyYAML.load ""). reflexivity.
Defined.

(** C5, on the code: [__normalize] is not idempotent.  [None] is in its
    image (it is what the string ['None'] normalizes to), it sends [None]
    to the string ['None'] and that string back to [None], so a further
    pass changes an already normalized value. *)
Theorem normalize_not_idempotent :
  normalize (PStr "None") = PNone /\
  normalize PNone = PStr "None" /\
  normalize (normalize PNone) = PNone /\
  normalize (normalize PNone) <> normalize PNone.
Proof. repeat split. discriminate. Qed.

(** ** [del_ignore_keys] outside its two loops *)

(** C2, on the code: for a pairing that is neither dictionary with
    dictionary nor list with one-element list, [del_ignore_keys] returns
    the empty dictionary [result_dict], not [src_dict]. *)
Theorem del_ignore_keys_other_pairing (src_dict del_dict : pyval) :
  pruning_applies src_dict del_dict = false ->
  del_ignore_keys src_dict del_dict = Ok (PDict []).
Proof.
  destruct src_dict as [a|l|d], del_dict as [a'|[|x [|y l']]|d'];
    simpl; try discriminate; reflexivity.
Qed.

Lemma del_ignore_keys_other_pairing_witness :
  pruning_applies (PStr "foo") (PDict []) = false /\
  del_ignore_keys (PStr "foo") (PDict []) = Ok (PDict []) /\
  PDict [] <> PStr "foo".
Proof.
  split; [reflexivity|]. split; [|discriminate].
  apply del_ignore_keys_other_pairing. reflexivity.
Defined.

Lemma del_ignore_keys_empty_dict (del_dict : pyval) :
  del_ignore_keys (PDict []) del_dict = Ok (PDict []).
Proof. now destruct del_dict. Qed.

(** Two texts that load as scalars are reported as unchanged, whatever
    they are. *)
Lemma main_scalar_documents
  (load : string -> option pyval) (dump : pyval -> string)
  (source target : string) (a b : atom) (ignore_keys : pydict)
  (ig : pyval) (ignore_empty : bool) :
  load source = Some (PAtom a) ->
  load target = Some (PAtom b) ->
  load (dump (normalize (PDict ignore_keys))) = Some ig ->
  main load dump source target ignore_keys ignore_empty =
  Ok {| before := dump (PDict []);
        after := dump (PDict []);
        changed := false |}.
Proof.
  intros Hs Ht Hi.
  assert (Hscalar : forall x d,
             del_ignore_keys (top_level (normalize (PAtom x))) d =
             Ok (PDict [])).
  { intros x d. rewrite normalize_atom.
    destruct (normalize_key x); try reflexivity.
    apply del_ignore_keys_empty_dict. }
  unfold main, yaml2dict, dict_to_yaml_str.
  rewrite (yaml_str_to_dict_loaded _ _ _ Hi).
  rewrite (yaml_str_to_dict_loaded _ _ _ Hs).
  rewrite (yaml_str_to_dict_loaded _ _ _ Ht).
  cbn [bind]. rewrite !Hscalar. cbn [bind].
  assert (Hprune : (if ignore_empty then del_empty_keys (PDict [])
                    else PDict []) = PDict []) by now destruct ignore_empty.
  rewrite Hprune. unfold dict2yaml, dict_to_yaml_str.
  change (normalize (PDict [])) with (PDict []).
  now rewrite String.eqb_refl.
Qed.

(** C1, on the code: [diff("foo", "bar", {}, false)] reports no change and
    renders both sides as the dump of the empty dictionary: each scalar is
    replaced by [{}] in [del_ignore_keys]. *)
Theorem main_foo_bar
  (load : string -> option pyval) (dump : pyval -> string) (ig : pyval) :
  load "foo" = Some (PStr "foo") ->
  load "bar" = Some (PStr "bar") ->
  load (dump (PDict [])) = Some ig ->
  main load dump "foo" "bar" [] false =
  Ok {| before := dump (PDict []);
        after := dump (PDict []);
        changed := false |}.
Proof.
  intros Hfoo Hbar Hig.
  now apply (main_scalar_documents load dump "foo" "bar"
               (AStr "foo") (AStr "bar") [] ig false).
Qed.

Lemma main_foo_bar_witness :
  main PyYAML.load PyYAML.dump "foo" "bar" [] false =
  Ok {| before := "{}" ++ PyYAML.newline;
        after := "{}" ++ PyYAML.newline;
        changed := false |}.
Proof.
  apply (main_foo_bar PyYAML.load PyYAML.dump (PDict [])); reflexivity.
Defined.

(** ** [del_empty_keys] *)

Lemma del_empty_keys_dict (d : pydict) :
  del_empty_keys (PDict d) =
  PDict (filter (fun kv => negb (py_in (snd kv) empty_dict_vals))
           (map (fun kv => (fst kv, del_empty_keys (snd kv))) d)).
Proof.
  cbn [del_empty_keys]. f_equal.
  induction d as [|[key val] d IH]; [reflexivity|].
  cbn [map filter fst snd]. cbv zeta.
  rewrite del_empty_keys_atom_or_container, IH.
  now destruct (py_in (del_empty_keys val) empty_dict_vals).
Qed.

Lemma del_empty_keys_list (l : list pyval) :
  del_empty_keys (PList l) =
  PList (filter (fun v => negb (py_in v empty_list_vals))
           (map del_empty_keys l)).
Proof.
  cbn [del_empty_keys]. f_equal.
  induction l as [|val l IH]; [reflexivity|].
  cbn [map filter]. cbv zeta.
  rewrite del_empty_keys_atom_or_container, IH.
  now destruct (py_in (del_empty_keys val) empty_list_vals).
Qed.

(** C8, as amended: in a dictionary [del_empty_keys] prunes every value
    and drops the keys whose pruned value is [None], [''], ['[]'], ['{}'],
    [[]] or [{}]; in a list it prunes every element and removes those whose
    pruned value is [None], ['[]'], ['{}'], [[]] or [{}], so an empty
    string stays in a list. *)
Theorem del_empty_keys_context_emptiness :
  (forall d,
      del_empty_keys (PDict d) =
      PDict (filter (fun kv => negb (py_in (snd kv) empty_dict_vals))
               (map (fun kv => (fst kv, del_empty_keys (snd kv))) d))) /\
  (forall l,
      del_empty_keys (PList l) =
      PList (filter (fun v => negb (py_in v empty_list_vals))
               (map del_empty_keys l))) /\
  (forall v,
      py_in v empty_dict_vals = true <->
      v = PNone \/ v = PStr "" \/ v = PStr "[]" \/ v = PStr "{}" \/
      v = PList [] \/ v = PDict []) /\
  (forall v,
      py_in v empty_list_vals = true <->
      v = PNone \/ v = PStr "[]" \/ v = PStr "{}" \/
      v = PList [] \/ v = PDict []) /\
  (forall l, del_empty_keys (PList (PStr "" :: l)) =
             match del_empty_keys (PList l) with
             | PList l' => PList (PStr "" :: l')
             | other => other
             end).
Proof.
  split; [exact del_empty_keys_dict|].
  split; [exact del_empty_keys_list|].
  split; [exact py_in_empty_dict_vals|].
  split; [exact py_in_empty_list_vals|].
  intros l. now rewrite !del_empty_keys_list.
Qed.

(** C8, counterexample: in a list, the string ['[]'] is removed although
    it is neither [None] nor an empty list nor an empty dictionary. *)
Lemma del_empty_keys_list_drops_bracket_string :
  del_empty_keys (PList [PStr "[]"; PStr ""]) = PList [PStr ""] /\
  PStr "[]" <> PNone /\ PStr "[]" <> PList [] /\ PStr "[]" <> PDict [].
Proof. repeat split; discriminate. Qed.

Lemma dict_get_filter_map_none
  (f : atom * pyval -> bool) (g : pyval -> pyval) (d : pydict) (k : atom) :
  dict_get d k = None ->
  dict_get (filter f (map (fun kv => (fst kv, g (snd kv))) d)) k = None.
Proof.
  induction d as [|[k0 v0] d IH]; [reflexivity|].
  cbn [map filter fst snd dict_get].
  destruct (atom_eqb k0 k) eqn:E; [discriminate|]. intros H.
  destruct (f (k0, g v0)); cbn [dict_get]; rewrite ?E; auto.
Qed.

(** The binding of a key after [del_empty_keys]. *)
Lemma dict_get_del_empty_keys (d : pydict) (k : atom) :
  unique_keys d ->
  dict_get
    (filter (fun kv => negb (py_in (snd kv) empty_dict_vals))
       (map (fun kv => (fst kv, del_empty_keys (snd kv))) d)) k =
  match dict_get d k with
  | Some v =>
      if py_in (del_empty_keys v) empty_dict_vals then None
      else Some (del_empty_keys v)
  | None => None
  end.
Proof.
  induction d as [|[k0 v0] d IH]; [reflexivity|].
  intros [Hfresh Huniq].
  cbn [map filter fst snd dict_get].
  destruct (atom_eqb k0 k) eqn:E.
  - destruct (py_in (del_empty_keys v0) empty_dict_vals); cbn [negb].
    + apply dict_get_filter_map_none.
      now rewrite <- (dict_get_eqb d k0 k E).
    + cbn [dict_get]. now rewrite E.
  - destruct (py_in (del_empty_keys v0) empty_dict_vals); cbn [negb dict_get];
      rewrite ?E; auto.
Qed.



(** ** [del_ignore_keys] on two dictionaries *)

Lemma del_ignore_keys_dict (src del : pydict) :
  del_ignore_keys (PDict src) (PDict del) = dict_loop del src [].
Proof. reflexivity. Qed.

Lemma del_ignore_keys_list (src : list pyval) (del_val : pyval) :
  del_ignore_keys (PList src) (PList [del_val]) =
  (result_dict <- list_loop del_val src 0 ;; Ok (PDict result_dict)).
Proof. reflexivity. Qed.

Lemma dict_loop_get (del : pydict) (l : pydict) :
  forall acc,
    unique_keys l ->
    (forall k, dict_get l k <> None -> dict_get acc k = None) ->
    (forall k sv dv,
        dict_get l k = Some sv -> dict_get del k = Some dv ->
        is_container sv && is_container dv = true ->
        exists r, del_ignore_keys sv dv = Ok r) ->
    exists res,
      dict_loop del l acc = Ok (PDict res) /\
      forall k, dict_get res k =
                match dict_get l k with
                | Some sv => kept_value (dict_get del k) sv
                | None => dict_get acc k
                end.
Proof.
  induction l as [|[k0 sv0] rest IH]; intros acc Huniq Hacc Hrec.
  - exists acc. split; reflexivity.
  - destruct Huniq as [Hfresh Huniq].
    assert (Hrest : forall k, atom_eqb k0 k = true -> dict_get rest k = None).
    { intros k E. now rewrite <- (dict_get_eqb rest k0 k E). }
    assert (Hrec' : forall k sv dv,
               dict_get rest k = Some sv -> dict_get del k = Some dv ->
               is_container sv && is_container dv = true ->
               exists r, del_ignore_keys sv dv = Ok r).
    { intros k sv dv Hk. apply Hrec. cbn [dict_get].
      destruct (atom_eqb k0 k) eqn:E; [|exact Hk].
      rewrite (Hrest k E) in Hk. discriminate. }
    (* the two ways the loop goes on: with [acc], or with [k0] bound *)
    assert (Hskip :
              kept_value (dict_get del k0) sv0 = None ->
              exists res,
                dict_loop del rest acc = Ok (PDict res) /\
                forall k, dict_get res k =
                          match dict_get ((k0, sv0) :: rest) k with
                          | Some sv => kept_value (dict_get del k) sv
                          | None => dict_get acc k
                          end).
    { intros Hkept.
      destruct (IH acc Huniq) as (res & Hres & Hget); [|exact Hrec'|].
      - intros k Hk. apply Hacc. cbn [dict_get].
        destruct (atom_eqb k0 k) eqn:E; [discriminate|exact Hk].
      - exists res. split; [exact Hres|]. intros k. rewrite Hget.
        cbn [dict_get]. destruct (atom_eqb k0 k) eqn:E; [|reflexivity].
        rewrite (Hrest k E), <- (dict_get_eqb del k0 k E), Hkept.
        apply Hacc. cbn [dict_get]. now rewrite E. }
    assert (Hbind :
              forall x, kept_value (dict_get del k0) sv0 = Some x ->
              exists res,
                dict_loop del rest (dict_set acc k0 x) = Ok (PDict res) /\
                forall k, dict_get res k =
                          match dict_get ((k0, sv0) :: rest) k with
                          | Some sv => kept_value (dict_get del k) sv
                          | None => dict_get acc k
                          end).
    { intros x Hkept.
      destruct (IH (dict_set acc k0 x) Huniq) as (res & Hres & Hget);
        [|exact Hrec'|].
      - intros k Hk. rewrite dict_get_set.
        destruct (atom_eqb k0 k) eqn:E.
        + now rewrite (Hrest k E) in Hk.
        + apply Hacc. cbn [dict_get]. now rewrite E.
      - exists res. split; [exact Hres|]. intros k. rewrite Hget.
        rewrite dict_get_set. cbn [dict_get].
        destruct (atom_eqb k0 k) eqn:E; [|reflexivity].
        now rewrite (Hrest k E), <- (dict_get_eqb del k0 k E), Hkept. }
    specialize (Hrec k0 sv0). cbn [dict_get] in Hrec.
    rewrite atom_eqb_refl in Hrec.
    cbn [dict_loop]. fold (dict_loop del).
    unfold kept_value in Hskip, Hbind.
    destruct (dict_get del k0) as [dv|]; [|now apply Hbind].
    destruct (is_container sv0 && is_container dv) eqn:Hc.
    + destruct (Hrec dv eq_refl eq_refl Hc) as (r & Hr).
      rewrite Hr in *. cbn [bind]. now apply Hbind.
    + destruct (py_in dv empty_dict_vals); [now apply Hskip|].
      destruct (py_eq dv sv0); [now apply Hskip | now apply Hbind].
Qed.

(** C7, as amended: on two dictionaries with all nested calls returning,
    [del_ignore_keys] returns a dictionary that binds no key absent from
    [src_dict], keeps a key absent from [del_dict] with its value, and for
    a key bound in both: binds it to the recursive result when both values
    are containers (tested first); otherwise drops it when the [del_dict]
    value is [None], [''], ['[]'], ['{}'], [[]] or [{}]; drops it when the
    two values are equal; and keeps it with its value in the remaining
    case. *)
Theorem del_ignore_keys_mapping (src del : pydict) :
  unique_keys src ->
  (forall k sv dv,
      dict_get src k = Some sv -> dict_get del k = Some dv ->
      is_container sv && is_container dv = true ->
      exists r, del_ignore_keys sv dv = Ok r) ->
  exists res,
    del_ignore_keys (PDict src) (PDict del) = Ok (PDict res) /\
    (forall k, dict_get src k = None -> dict_get res k = None) /\
    (forall k sv,
        dict_get src k = Some sv ->
        (dict_get del k = None -> dict_get res k = Some sv) /\
        (forall dv,
            dict_get del k = Some dv ->
            (is_container sv && is_container dv = true ->
             exists r, del_ignore_keys sv dv = Ok r /\
                       dict_get res k = Some r) /\
            (is_container sv && is_container dv = false ->
             (empty_in_dict dv -> dict_get res k = None) /\
             (py_eq dv sv = true -> dict_get res k = None) /\
             (~ empty_in_dict dv -> py_eq dv sv = false ->
              dict_get res k = Some sv)))).
Proof.
  intros Huniq Hrec.
  destruct (dict_loop_get del src [] Huniq) as (res & Hres & Hget);
    [reflexivity | exact Hrec |].
  exists res. split; [now rewrite del_ignore_keys_dict|]. split.
  - intros k Hk. now rewrite Hget, Hk.
  - intros k sv Hk. specialize (Hget k). rewrite Hk in Hget. split.
    + intros Hd. now rewrite Hget, Hd.
    + intros dv Hd. rewrite Hd in Hget. cbn [kept_value] in Hget. split.
      * intros Hc. rewrite Hc in Hget.
        destruct (Hrec k sv dv Hk Hd Hc) as (r & Hr).
        exists r. split; [exact Hr|]. now rewrite Hget, Hr.
      * intros Hc. rewrite Hc in Hget.
        pose proof (py_in_empty_dict_vals dv) as Hempty.
        fold (empty_in_dict dv) in Hempty.
        destruct (py_in dv empty_dict_vals).
        -- split; [intros _; exact Hget|].
           split; [intros _; exact Hget|].
           intros Hne _. exfalso. apply Hne. now apply Hempty.
        -- split; [intros He; apply Hempty in He; discriminate|].
           split; [intros He; now rewrite He in Hget|].
           intros _ He. now rewrite He in Hget.
Qed.

Lemma del_ignore_keys_mapping_witness :
  exists res,
    del_ignore_keys
      (PDict [(AStr "a", PStr "1");
              (AStr "b", PDict [(AStr "c", PStr "t")]);
              (AStr "s", PStr "x")])
      (PDict [(AStr "b", PDict [(AStr "c", PNone)]);
              (AStr "s", PStr "[]")]) = Ok (PDict res) /\
    dict_get res (AStr "a") = Some (PStr "1") /\
    dict_get res (AStr "s") = None.
Proof.
  assert (Huniq : unique_keys
                    [(AStr "a", PStr "1");
                     (AStr "b", PDict [(AStr "c", PStr "t")]);
                     (AStr "s", PStr "x")]) by (simpl; auto).
  assert (Hrec : forall k sv dv,
             dict_get [(AStr "a", PStr "1");
                       (AStr "b", PDict [(AStr "c", PStr "t")]);
                       (AStr "s", PStr "x")] k = Some sv ->
             dict_get [(AStr "b", PDict [(AStr "c", PNone)]);
                       (AStr "s", PStr "[]")] k = Some dv ->
             is_container sv && is_container dv = true ->
             exists r, del_ignore_keys sv dv = Ok r).
  { intros k sv dv Hs Hd Hc. cbn [dict_get] in Hs.
    destruct (atom_eqb (AStr "a") k);
      [injection Hs as <-; discriminate Hc|].
    destruct (atom_eqb (AStr "b") k) eqn:E.
    - injection Hs as <-.
      rewrite <- (dict_get_eqb _ _ _ E) in Hd. injection Hd as <-.
      eexists. reflexivity.
    - destruct (atom_eqb (AStr "s") k);
        [injection Hs as <-; discriminate Hc | discriminate Hs]. }
  destruct (del_ignore_keys_mapping _ _ Huniq Hrec)
    as (res & Hres & _ & Hboth).
  exists res. split; [exact Hres|]. split.
  - apply (proj1 (Hboth (AStr "a") (PStr "1") eq_refl)). reflexivity.
  - destruct (Hboth (AStr "s") (PStr "x") eq_refl) as [_ Hs].
    destruct (Hs (PStr "[]") eq_refl) as [_ Hscalar].
    destruct (Hscalar eq_refl) as [Hempty _].
    apply Hempty. unfold empty_in_dict. auto.
Defined.

(** C7, counterexample: a key whose [del_dict] value is the string ['[]']
    is dropped although that value is neither [None], nor an empty string,
    list or dictionary, nor equal to the source value. *)
Lemma del_ignore_keys_drops_on_bracket_string :
  del_ignore_keys (PDict [(AStr "k", PStr "v")])
                  (PDict [(AStr "k", PStr "[]")]) = Ok (PDict []) /\
  py_eq (PStr "[]") (PStr "v") = false /\
  PStr "[]" <> PNone /\ PStr "[]" <> PStr "" /\
  PStr "[]" <> PList [] /\ PStr "[]" <> PDict [].
Proof. repeat split; discriminate. Qed.

(** ** [del_ignore_keys] on a list and a one-element list *)








(** The keep operation of the list branch reads the unbound local [key]:
    an element that is neither recursed into nor dropped ends the call
    with [UnboundLocalError]. *)
Lemma del_ignore_keys_list_keep_raises :
  del_ignore_keys (PList [PStr "a"]) (PList [PStr "b"]) =
  Raise (UnboundLocalError "key").
Proof. reflexivity. Qed.

(** ** The image of [__normalize] *)

Lemma normalize_dict (d : pydict) :
  normalize (PDict d) = PDict (dict_of (map normalize_item d)).
Proof.
  change (normalize (PDict d))
    with (PDict (dict_of
                   ((fix items (l : pydict) : pydict :=
                       match l with
                       | [] => []
                       | (key, val) :: rest =>
                           (normalize_key key, normalize val) :: items rest
                       end) d))).
  do 2 f_equal. induction d as [|[k v] d IH]; [reflexivity|].
  cbn [map]. now rewrite IH.
Qed.

Lemma normal_list (l : list pyval) : normal (PList l) <-> Forall normal l.
Proof.
  cbn [normal]. induction l as [|x l IH].
  - split; auto.
  - rewrite IH. split.
    + intros [Hx Hl]. now constructor.
    + intros H. inversion H; subst. now split.
Qed.

Lemma normal_dict (d : pydict) :
  normal (PDict d) <->
  unique_keys d /\ Forall normal_item d.
Proof.
  unfold normal_item. cbn [normal]. apply and_iff_compat_l.
  induction d as [|[k v] d IH].
  - split; auto.
  - rewrite IH. split.
    + intros (Hk & Hv & Hd). constructor; [now split | exact Hd].
    + intros H. inversion H as [|? ? [Hk Hv] Hd]; subst. now repeat split.
Qed.

Lemma str_of_Z_not_null_token (z : Z) :
  str_of_Z z <> "null" /\ str_of_Z z <> "Null" /\ str_of_Z z <> "NULL".
Proof.
  unfold str_of_Z.
  destruct (Z.to_int z) as [d|d]; destruct d; simpl; repeat split;
    discriminate.
Qed.

Lemma py_in_null_tokens_str (s : string) :
  py_in (PStr s) null_tokens =
  (String.eqb "None" s || (String.eqb "null" s ||
   (String.eqb "Null" s || (String.eqb "NULL" s || false)))).
Proof. reflexivity. Qed.

Lemma normal_normalize_key (a : atom) : normal_atom (normalize_key a).
Proof.
  unfold normalize_key. destruct a as [|b|z|s].
  - cbn. repeat split; discriminate.
  - destruct b; cbn; repeat split; discriminate.
  - change (py_in (PInt z) null_tokens) with false. cbn [str normal_atom].
    apply str_of_Z_not_null_token.
  - rewrite py_in_null_tokens_str.
    destruct (String.eqb "None" s); [exact I|].
    destruct (String.eqb "null" s) eqn:E1; [exact I|].
    destruct (String.eqb "Null" s) eqn:E2; [exact I|].
    destruct (String.eqb "NULL" s) eqn:E3; [exact I|].
    apply String.eqb_neq in E1, E2, E3. cbn. repeat split; congruence.
Qed.

Lemma normalize_key_involutive (a : atom) :
  normal_atom a -> normalize_key (normalize_key a) = a.
Proof.
  destruct a as [|b|z|s]; cbn [normal_atom]; try contradiction.
  - reflexivity.
  - intros (H1 & H2 & H3). unfold normalize_key at 2.
    rewrite py_in_null_tokens_str.
    destruct (String.eqb "None" s) eqn:E0.
    + apply String.eqb_eq in E0. now subst.
    + assert (E1 : String.eqb "null" s = false)
        by (apply String.eqb_neq; congruence).
      assert (E2 : String.eqb "Null" s = false)
        by (apply String.eqb_neq; congruence).
      assert (E3 : String.eqb "NULL" s = false)
        by (apply String.eqb_neq; congruence).
      rewrite E1, E2, E3. cbn [orb str]. unfold normalize_key.
      rewrite py_in_null_tokens_str. now rewrite E0, E1, E2, E3.
Qed.

(** On normalized scalars [==] is equality. *)
Lemma normal_atom_eqb (a b : atom) :
  normal_atom a -> normal_atom b -> atom_eqb a b = true -> a = b.
Proof.
  destruct a, b; cbn; try contradiction; try discriminate; auto.
  intros _ _ E. apply String.eqb_eq in E. now subst.
Qed.

Lemma normalize_key_eqb (a b : atom) :
  normal_atom a -> normal_atom b ->
  atom_eqb a b = false ->
  atom_eqb (normalize_key a) (normalize_key b) = false.
Proof.
  intros Ha Hb E.
  destruct (atom_eqb (normalize_key a) (normalize_key b)) eqn:E';
    [|reflexivity].
  apply normal_atom_eqb in E'; try apply normal_normalize_key.
  apply (f_equal normalize_key) in E'.
  rewrite !normalize_key_involutive in E' by assumption. subst.
  now rewrite atom_eqb_refl in E.
Qed.

(** ** Building a dictionary from pairs *)

Lemma unique_keys_dict_set (d : pydict) (k : atom) (v : pyval) :
  unique_keys d -> unique_keys (dict_set d k v).
Proof.
  induction d as [|[k0 v0] d IH]; cbn [dict_set unique_keys].
  - auto.
  - intros [Hfresh Huniq]. destruct (atom_eqb k0 k) eqn:E.
    + now split.
    + cbn [unique_keys]. split; [|now apply IH].
      rewrite dict_get_set, atom_eqb_sym, E. exact Hfresh.
Qed.

Lemma fold_dict_set_unique (l : pydict) :
  forall acc,
    unique_keys l ->
    (forall k, dict_get l k <> None -> dict_get acc k = None) ->
    fold_left (fun d kv => dict_set d (fst kv) (snd kv)) l acc =
    (acc ++ l)%list.
Proof.
  induction l as [|[k v] l IH]; intros acc Huniq Hacc.
  - now rewrite app_nil_r.
  - destruct Huniq as [Hfresh Huniq]. cbn [fold_left fst snd].
    rewrite dict_set_fresh.
    + rewrite IH; [now rewrite <- app_assoc | exact Huniq |].
      intros k' Hk'. rewrite dict_get_app. cbn [dict_get].
      destruct (atom_eqb k k') eqn:E.
      * now rewrite <- (dict_get_eqb l k k' E) in Hk'.
      * rewrite Hacc; [reflexivity|]. cbn [dict_get]. now rewrite E.
    + apply Hacc. cbn [dict_get]. rewrite atom_eqb_refl. discriminate.
Qed.

(** A list of pairs with distinct keys is the dictionary it builds. *)
Lemma dict_of_unique (l : pydict) : unique_keys l -> dict_of l = l.
Proof.
  intros Huniq. unfold dict_of.
  now rewrite fold_dict_set_unique.
Qed.

Lemma normal_items_dict_set (d : pydict) (k : atom) (v : pyval) :
  normal_atom k -> normal v ->
  Forall normal_item d -> Forall normal_item (dict_set d k v).
Proof.
  intros Hk Hv. induction d as [|[k0 v0] d IH]; cbn [dict_set]; intros Hd.
  - constructor; [now split | constructor].
  - inversion Hd as [|? ? [Hk0 Hv0] Hrest]; subst.
    destruct (atom_eqb k0 k).
    + constructor; [now split | assumption].
    + constructor; [now split | now apply IH].
Qed.

Lemma normal_dict_of (l : pydict) :
  Forall normal_item l -> normal (PDict (dict_of l)).
Proof.
  intros Hl. apply normal_dict. unfold dict_of.
  assert (H : forall acc,
             unique_keys acc /\ Forall normal_item acc ->
             unique_keys
               (fold_left (fun d kv => dict_set d (fst kv) (snd kv)) l acc) /\
             Forall normal_item
               (fold_left (fun d kv => dict_set d (fst kv) (snd kv)) l acc)).
  { induction Hl as [|[k v] l [Hk Hv] Hl IH]; intros acc [Hu Hn].
    - now split.
    - cbn [fold_left fst snd]. apply IH. split.
      + now apply unique_keys_dict_set.
      + now apply normal_items_dict_set. }
  apply H. split; [exact I | constructor].
Qed.

(** Every tree that [__normalize] returns is normalized. *)
Lemma normal_normalize (obj : pyval) : normal (normalize obj).
Proof.
  induction obj as [a|l IH|d IH] using pyval_ind.
  - rewrite normalize_atom. apply normal_normalize_key.
  - rewrite normalize_list. apply normal_list. now apply Forall_map.
  - rewrite normalize_dict. apply normal_dict_of. apply Forall_map.
    induction IH as [|[k v] d Hv Hd IHd]; constructor; [|exact IHd].
    split; [apply normal_normalize_key | exact Hv].
Qed.

Lemma dict_get_normalize_items_none (d : pydict) (k : atom) :
  Forall normal_item d -> normal_atom k ->
  dict_get d k = None ->
  dict_get (map normalize_item d) (normalize_key k) = None.
Proof.
  intros Hd Hk. induction Hd as [|[k0 v0] d [Hk0 Hv0] Hd IH];
    [reflexivity|].
  cbn [map dict_get normalize_item fst snd].
  destruct (atom_eqb k0 k) eqn:E; [discriminate|].
  now rewrite (normalize_key_eqb k0 k Hk0 Hk E).
Qed.

Lemma unique_keys_normalize_items (d : pydict) :
  Forall normal_item d -> unique_keys d ->
  unique_keys (map normalize_item d).
Proof.
  intros Hd. induction Hd as [|[k v] d [Hk Hv] Hd IH]; [auto|].
  intros [Hfresh Huniq]. cbn [map unique_keys normalize_item fst snd].
  split; [now apply dict_get_normalize_items_none | now apply IH].
Qed.

Lemma map_fixed {A : Type} (f : A -> A) (l : list A) :
  Forall (fun x => f x = x) l -> map f l = l.
Proof.
  induction 1 as [|x l Hx Hl IH]; [reflexivity|].
  cbn [map]. now rewrite Hx, IH.
Qed.

(** On a normalized tree two passes of [__normalize] cancel: the second
    pass undoes the exchange of [None] and ['None'] made by the first. *)
Lemma normalize_normalize_normal (v : pyval) :
  normal v -> normalize (normalize v) = v.
Proof.
  induction v as [a|l IH|d IH] using pyval_ind; intros Hn.
  - rewrite !normalize_atom. f_equal. now apply normalize_key_involutive.
  - apply normal_list in Hn. rewrite !normalize_list, map_map. f_equal.
    apply map_fixed. rewrite Forall_forall in *. auto.
  - apply normal_dict in Hn. destruct Hn as [Huniq Hitems].
    assert (Hitems' : Forall normal_item (map normalize_item d)).
    { apply Forall_map, Forall_forall. intros kv _.
      split; [apply normal_normalize_key | apply normal_normalize]. }
    rewrite normalize_dict.
    rewrite (dict_of_unique _ (unique_keys_normalize_items d Hitems Huniq)).
    rewrite normalize_dict.
    rewrite dict_of_unique
      by (apply unique_keys_normalize_items;
          [exact Hitems' | now apply unique_keys_normalize_items]).
    rewrite map_map. f_equal. apply map_fixed.
    rewrite Forall_forall in *. intros [k v] Hin.
    destruct (Hitems _ Hin) as [Hk Hv]. cbn [fst snd] in Hk, Hv.
    unfold normalize_item. cbn [fst snd].
    rewrite (normalize_key_involutive k Hk).
    pose proof (IH _ Hin Hv) as E. cbn [snd] in E. now rewrite E.
Qed.

Lemma normal_top_level (v : pyval) :
  normal v -> normal (top_level v) /\ top_level (top_level v) = top_level v.
Proof.
  destruct v as [[|b|z|s]|l|d]; cbn; auto.
Qed.

(** ** [==] on normalized trees *)

Lemma well_keyed_list (l : list pyval) :
  well_keyed (PList l) <-> Forall well_keyed l.
Proof.
  cbn [well_keyed]. induction l as [|x l IH].
  - split; auto.
  - rewrite IH. split.
    + intros [Hx Hl]. now constructor.
    + intros H. inversion H; subst. now split.
Qed.

Lemma well_keyed_dict (d : pydict) :
  well_keyed (PDict d) <->
  unique_keys d /\ Forall (fun kv => well_keyed (snd kv)) d.
Proof.
  cbn [well_keyed]. apply and_iff_compat_l.
  induction d as [|[k x] d IH].
  - split; auto.
  - rewrite IH. split.
    + intros [Hx Hl]. now constructor.
    + intros H. inversion H; subst. now split.
Qed.

(** Two lists are equal when their elements are, one by one. *)
Lemma py_eq_list (xs ys : list pyval) :
  py_eq (PList xs) (PList ys) = true <->
  Forall2 (fun x y => py_eq x y = true) xs ys.
Proof.
  revert ys. induction xs as [|x xs IH]; intros [|y ys].
  - split; [constructor | reflexivity].
  - split; [discriminate | intros H; inversion H].
  - split; [discriminate | intros H; inversion H].
  - change (py_eq (PList (x :: xs)) (PList (y :: ys)))
      with (py_eq x y && py_eq (PList xs) (PList ys)).
    rewrite andb_true_iff, IH. split.
    + intros [Hx Hxs]. now constructor.
    + intros H. inversion H; subst. now split.
Qed.

(** Two dictionaries are equal when they have as many items and every
    key of the first is bound in the second to an equal value. *)
Lemma py_eq_dict (xs ys : pydict) :
  py_eq (PDict xs) (PDict ys) = true <->
  List.length xs = List.length ys /\
  Forall (fun kv => exists w, dict_get ys (fst kv) = Some w /\
                              py_eq (snd kv) w = true) xs.
Proof.
  change (py_eq (PDict xs) (PDict ys))
    with ((List.length xs =? List.length ys)%nat &&
          (fix items_eq (xs : pydict) {struct xs} : bool :=
             match xs with
             | [] => true
             | (k, v) :: xs' =>
                 match dict_get ys k with
                 | Some w => py_eq v w && items_eq xs'
                 | None => false
                 end
             end) xs).
  rewrite andb_true_iff, Nat.eqb_eq. apply and_iff_compat_l.
  induction xs as [|[k v] xs IH].
  - split; [constructor | reflexivity].
  - destruct (dict_get ys k) as [w|] eqn:E.
    + rewrite andb_true_iff, IH. split.
      * intros [Hv Hxs]. constructor; [|exact Hxs].
        exists w. now split.
      * intros H. inversion H as [|? ? (w' & Hw & Hv) Hxs]; subst.
        cbn [fst snd] in Hw, Hv. rewrite E in Hw. injection Hw as <-.
        now split.
    + split; [discriminate|].
      intros H. inversion H as [|? ? (w' & Hw & _) _]; subst.
      cbn [fst] in Hw. congruence.
Qed.

Lemma dict_get_In (d : pydict) (k : atom) (v : pyval) :
  dict_get d k = Some v ->
  exists k', In (k', v) d /\ atom_eqb k' k = true.
Proof.
  induction d as [|[k0 v0] d IH]; cbn [dict_get]; [discriminate|].
  destruct (atom_eqb k0 k) eqn:E.
  - intros H. injection H as <-. exists k0. split; [now left | exact E].
  - intros H. destruct (IH H) as (k' & Hin & Hk').
    exists k'. split; [now right | exact Hk'].
Qed.

(** Only a normalized scalar equals a normalized scalar. *)
Lemma atom_eqb_normal (a b : atom) :
  normal_atom b -> atom_eqb a b = true -> a = b.
Proof.
  destruct a, b; cbn; try contradiction; try discriminate; auto.
  intros _ E. apply String.eqb_eq in E. now subst.
Qed.

(** A Python value that equals a normalized tree is normalized: there
    is no boolean or integer in a normalized tree that it could match
    with another scalar. *)
Lemma py_eq_normal (u : pyval) :
  forall w, normal w -> well_keyed u -> py_eq u w = true -> normal u.
Proof.
  induction u as [a|l IH|d IH] using pyval_ind;
    intros [b|ys|ys] Hw Hu E; try discriminate E.
  - cbn [py_eq] in E. apply (atom_eqb_normal a b Hw) in E. now subst.
  - apply py_eq_list in E. apply normal_list in Hw.
    apply well_keyed_list in Hu. apply normal_list.
    revert IH Hw Hu.
    induction E as [|x y xs ys' Hxy E IHE]; intros IH Hw Hu; [constructor|].
    inversion IH; inversion Hw; inversion Hu; subst.
    constructor; [eauto | now apply IHE].
  - apply py_eq_dict in E. destruct E as [_ E].
    apply normal_dict in Hw. destruct Hw as [_ Hw].
    apply well_keyed_dict in Hu. destruct Hu as [Huniq Hu].
    apply normal_dict. split; [exact Huniq|].
    rewrite Forall_forall in *. intros [k v] Hin.
    destruct (E _ Hin) as (w & Hget & Hv). cbn [fst snd] in Hget, Hv.
    destruct (dict_get_In ys k w Hget) as (k' & Hin' & Hk').
    destruct (Hw _ Hin') as [Hnk Hnw]. cbn [fst snd] in Hnk, Hnw.
    split; cbn [fst snd].
    + rewrite atom_eqb_sym in Hk'.
      now rewrite (atom_eqb_normal k k' Hnk Hk').
    + apply (IH _ Hin w Hnw); [|exact Hv].
      apply (Hu _ Hin).
Qed.

(** On a normalized dictionary [__normalize] works item by item: no two
    keys meet. *)
Lemma normalize_normal_dict (d : pydict) :
  normal (PDict d) -> normalize (PDict d) = PDict (map normalize_item d).
Proof.
  intros Hn. apply normal_dict in Hn. destruct Hn as [Huniq Hitems].
  rewrite normalize_dict. f_equal.
  now apply dict_of_unique, unique_keys_normalize_items.
Qed.

Lemma dict_get_normalize_items (d : pydict) (k : atom) (v : pyval) :
  Forall normal_item d -> normal_atom k ->
  dict_get d k = Some v ->
  dict_get (map normalize_item d) (normalize_key k) = Some (normalize v).
Proof.
  intros Hd Hk. induction Hd as [|[k0 v0] d [Hk0 Hv0] Hd IH];
    [discriminate|].
  cbn [map dict_get normalize_item fst snd] in *.
  destruct (atom_eqb k0 k) eqn:E.
  - intros H. injection H as <-.
    rewrite (normal_atom_eqb k0 k Hk0 Hk E). now rewrite atom_eqb_refl.
  - rewrite (normalize_key_eqb k0 k Hk0 Hk E). exact IH.
Qed.

(** [__normalize] keeps two equal normalized trees equal, whatever the
    order of their items. *)
Lemma py_eq_normalize (u : pyval) :
  forall w, normal u -> normal w -> py_eq u w = true ->
            py_eq (normalize u) (normalize w) = true.
Proof.
  induction u as [a|l IH|d IH] using pyval_ind;
    intros [b|ys|ys] Hu Hw E; try discriminate E.
  - cbn [py_eq] in E. apply (atom_eqb_normal a b Hw) in E. subst.
    rewrite normalize_atom. cbn [py_eq]. apply atom_eqb_refl.
  - rewrite !normalize_list. apply py_eq_list.
    apply py_eq_list in E. apply normal_list in Hu, Hw.
    revert IH Hu Hw.
    induction E as [|x y xs ys' Hxy E IHE]; intros IH Hu Hw;
      cbn [map]; [constructor|].
    inversion IH; inversion Hu; inversion Hw; subst.
    constructor; [eauto | now apply IHE].
  - rewrite (normalize_normal_dict d Hu), (normalize_normal_dict ys Hw).
    apply py_eq_dict in E. destruct E as [Hlen E].
    apply normal_dict in Hu, Hw.
    destruct Hu as [_ Hu]. destruct Hw as [_ Hw].
    apply py_eq_dict. split; [now rewrite !length_map|].
    apply Forall_map. rewrite Forall_forall in *. intros [k v] Hin.
    destruct (E _ Hin) as (w & Hget & Hv). cbn [fst snd] in Hget, Hv.
    destruct (Hu _ Hin) as [Hnk Hnv]. cbn [fst snd] in Hnk, Hnv.
    destruct (dict_get_In ys k w Hget) as (k' & Hin' & _).
    destruct (Hw _ Hin') as [_ Hnw]. cbn [snd] in Hnw.
    exists (normalize w). unfold normalize_item at 1 3. cbn [fst snd].
    split.
    + apply dict_get_normalize_items; [|exact Hnk|exact Hget].
      now apply Forall_forall.
    + now apply (IH _ Hin).
Qed.

(** What PyYAML reads back from a normalized tree, normalized again, is
    the tree normalized again, up to [==]. *)
Lemma normalize_read_back (u w : pyval) :
  normal w -> well_keyed u -> py_eq u w = true ->
  py_eq (normalize u) (normalize w) = true.
Proof.
  intros Hw Hu E. apply py_eq_normalize; [|exact Hw|exact E].
  exact (py_eq_normal u w Hw Hu E).
Qed.

Lemma top_level_py_eq (u t : pyval) :
  top_level t = t -> py_eq u t = true -> top_level u = u.
Proof.
  destruct u as [[| | |]| |], t as [[| | |]| |];
    try reflexivity; discriminate.
Qed.

(** ** Round trip through the text codec *)

(** C9: decoding the encoding of a tree [t] that [yaml2dict] produced
    gives a tree equal to [t] ([==]: the items of a dictionary in any
    order), provided PyYAML itself reads back a value [u] equal to the
    tree it is given to dump (the twice normalized tree).  As every
    Python value, [u] binds a key once in each of its dictionaries. *)
Theorem decode_encode_round_trip
  (load : string -> option pyval) (dump : pyval -> string)
  (input : yaml_input) (t u : pyval) :
  yaml2dict load dump input = Ok t ->
  load (dump (normalize t)) = Some u ->
  well_keyed u ->
  py_eq u (normalize t) = true ->
  exists t',
    yaml2dict load dump (FromText (dict2yaml dump t)) = Ok t' /\
    py_eq t' t = true.
Proof.
  intros Hdecode Hyaml Hu Heq.
  assert (Ht : normal t /\ top_level t = t).
  { assert (H : forall s, yaml_str_to_dict load s = Ok t ->
                          normal t /\ top_level t = t).
    { intros s Hs. destruct (load s) as [obj|] eqn:Hload.
      - rewrite (yaml_str_to_dict_loaded load s obj Hload) in Hs.
        injection Hs as <-. apply normal_top_level, normal_normalize.
      - unfold yaml_str_to_dict in Hs. rewrite Hload in Hs. discriminate. }
    destruct input as [s|d]; cbn [yaml2dict] in Hdecode; eauto. }
  destruct Ht as [Hnormal Htop].
  pose proof (normalize_read_back u (normalize t)
                (normal_normalize t) Hu Heq) as E.
  rewrite (normalize_normalize_normal t Hnormal) in E.
  exists (normalize u). split; [|exact E].
  cbn [yaml2dict]. unfold dict2yaml, dict_to_yaml_str.
  rewrite (yaml_str_to_dict_loaded load _ _ Hyaml).
  now rewrite (top_level_py_eq (normalize u) t Htop E).
Qed.

Lemma decode_encode_round_trip_witness :
  yaml2dict PyYAMLBlock.load PyYAMLBlock.dump
    (FromText ("b: x" ++ PyYAML.newline ++ "a: null" ++ PyYAML.newline)) =
  Ok (PDict [(AStr "b", PStr "x"); (AStr "a", PStr "None")]) /\
  exists t',
    yaml2dict PyYAMLBlock.load PyYAMLBlock.dump
      (FromText
         (dict2yaml PyYAMLBlock.dump
            (PDict [(AStr "b", PStr "x"); (AStr "a", PStr "None")]))) =
    Ok t' /\
    py_eq t' (PDict [(AStr "b", PStr "x"); (AStr "a", PStr "None")]) = true.
Proof.
  split; [reflexivity|].
  apply (decode_encode_round_trip PyYAMLBlock.load PyYAMLBlock.dump
           (FromText ("b: x" ++ PyYAML.newline ++ "a: null" ++
                      PyYAML.newline))
           (PDict [(AStr "b", PStr "x"); (AStr "a", PStr "None")])
           (PDict [(AStr "a", PNone); (AStr "b", PStr "x")]));
    [reflexivity | reflexivity | | reflexivity].
  cbn [well_keyed unique_keys dict_get atom_eqb String.eqb Ascii.eqb
       Bool.eqb].
  repeat split.
Defined.

(** * Further properties *)

(** ** [del_empty_keys]: what is left, and what it costs *)

Lemma pruned_list (l : list pyval) :
  pruned (PList l) <->
  Forall (fun x => pruned x /\ py_in x empty_list_vals = false) l.
Proof.
  cbn [pruned]. induction l as [|x l IH].
  - split; auto.
  - rewrite IH. split.
    + intros (Hx & He & Hl). constructor; [now split | exact Hl].
    + intros H. inversion H as [|? ? [Hx He] Hl]; subst. now repeat split.
Qed.

Lemma pruned_dict (d : pydict) :
  pruned (PDict d) <->
  Forall (fun kv => pruned (snd kv) /\
                    py_in (snd kv) empty_dict_vals = false) d.
Proof.
  cbn [pruned]. induction d as [|[k x] d IH].
  - split; auto.
  - rewrite IH. split.
    + intros (Hx & He & Hl). constructor; [now split | exact Hl].
    + intros H. inversion H as [|? ? [Hx He] Hl]; subst. now repeat split.
Qed.

Lemma pruned_del_empty_keys (obj : pyval) : pruned (del_empty_keys obj).
Proof.
  induction obj as [a|l IH|d IH] using pyval_ind.
  - exact I.
  - rewrite del_empty_keys_list. apply pruned_list, Forall_forall.
    intros x Hin. apply filter_In in Hin. destruct Hin as [Hin Hkeep].
    apply in_map_iff in Hin. destruct Hin as (y & <- & Hy).
    rewrite Forall_forall in IH. split; [now apply IH|].
    now apply negb_true_iff in Hkeep.
  - rewrite del_empty_keys_dict. apply pruned_dict, Forall_forall.
    intros kv Hin. apply filter_In in Hin. destruct Hin as [Hin Hkeep].
    apply in_map_iff in Hin. destruct Hin as (y & <- & Hy).
    rewrite Forall_forall in IH. cbn [snd] in *.
    split; [now apply IH|]. now apply negb_true_iff in Hkeep.
Qed.

Lemma filter_all {A : Type} (f : A -> bool) (l : list A) :
  Forall (fun x => f x = true) l -> filter f l = l.
Proof.
  induction 1 as [|x l Hx Hl IH]; [reflexivity|].
  cbn [filter]. now rewrite Hx, IH.
Qed.

Lemma del_empty_keys_pruned (v : pyval) :
  pruned v -> del_empty_keys v = v.
Proof.
  induction v as [a|l IH|d IH] using pyval_ind; intros Hp.
  - reflexivity.
  - apply pruned_list in Hp. rewrite del_empty_keys_list. f_equal.
    rewrite Forall_forall in IH, Hp.
    rewrite map_fixed by (apply Forall_forall; intros x Hx;
                          apply IH; [exact Hx | apply Hp, Hx]).
    apply filter_all, Forall_forall. intros x Hx.
    apply negb_true_iff, Hp, Hx.
  - apply pruned_dict in Hp. rewrite del_empty_keys_dict. f_equal.
    rewrite Forall_forall in IH, Hp.
    rewrite map_fixed.
    + apply filter_all, Forall_forall. intros kv Hkv.
      apply negb_true_iff, Hp, Hkv.
    + apply Forall_forall. intros [k x] Hkv. cbn [fst snd]. f_equal.
      apply (IH _ Hkv). apply (Hp _ Hkv).
Qed.

(** X1: the trees that [del_empty_keys] leaves unchanged are exactly those
    in which no dictionary holds an empty value and no list an empty
    element, and every result of [del_empty_keys] is such a tree. *)
Theorem del_empty_keys_fixed_points (v : pyval) :
  pruned (del_empty_keys v) /\ (del_empty_keys v = v <-> pruned v).
Proof.
  split; [apply pruned_del_empty_keys|]. split.
  - intros H. rewrite <- H. apply pruned_del_empty_keys.
  - apply del_empty_keys_pruned.
Qed.

(** X2: [del_empty_keys] is idempotent: a second pass removes nothing
    more, also where the first pass emptied a container. *)
Theorem del_empty_keys_idempotent (v : pyval) :
  del_empty_keys (del_empty_keys v) = del_empty_keys v.
Proof. apply del_empty_keys_pruned, pruned_del_empty_keys. Qed.

Lemma tree_size_dict (d : pydict) :
  tree_size (PDict d) = S (list_sum (map (fun kv => tree_size (snd kv)) d)).
Proof.
  cbn [tree_size]. f_equal.
  induction d as [|[k x] d IH]; [reflexivity|].
  cbn [map list_sum snd]. now rewrite IH.
Qed.

Lemma list_sum_filter_map_le {A : Type} (f : A -> bool) (g : A -> A)
      (h : A -> nat) (l : list A) :
  Forall (fun x => (h (g x) <= h x)%nat) l ->
  (list_sum (map h (filter f (map g l))) <= list_sum (map h l))%nat.
Proof.
  induction 1 as [|x l Hx Hl IH]; [apply Nat.le_refl|].
  cbn [filter map]. destruct (f (g x)); cbn [map];
    change (list_sum (?a :: ?r)) with (a + list_sum r)%nat; lia.
Qed.

(** X3: [del_empty_keys] never grows a tree and keeps its kind: a list
    stays a list with at most as many elements, a dictionary a dictionary
    with at most as many keys, a scalar (empty or not) is returned as it
    is, and the number of nodes does not increase. *)
Theorem del_empty_keys_shrinks (v : pyval) :
  (tree_size (del_empty_keys v) <= tree_size v)%nat /\
  match v with
  | PAtom a => del_empty_keys v = PAtom a
  | PList l =>
      exists l', del_empty_keys v = PList l' /\
                 (List.length l' <= List.length l)%nat
  | PDict d =>
      exists d', del_empty_keys v = PDict d' /\
                 (List.length d' <= List.length d)%nat
  end.
Proof.
  split.
  - induction v as [a|l IH|d IH] using pyval_ind.
    + apply Nat.le_refl.
    + rewrite del_empty_keys_list. cbn [tree_size]. apply le_n_S.
      now apply list_sum_filter_map_le.
    + rewrite del_empty_keys_dict, !tree_size_dict. apply le_n_S.
      apply (list_sum_filter_map_le _
               (fun kv => (fst kv, del_empty_keys (snd kv)))
               (fun kv => tree_size (snd kv))).
      exact IH.
  - destruct v as [a|l|d].
    + reflexivity.
    + eexists. split; [apply del_empty_keys_list|].
      etransitivity; [apply filter_length_le|]. now rewrite length_map.
    + eexists. split; [apply del_empty_keys_dict|].
      etransitivity; [apply filter_length_le|]. now rewrite length_map.
Qed.

Lemma unique_keys_filter_map
  (f : atom * pyval -> bool) (g : pyval -> pyval) (d : pydict) :
  unique_keys d ->
  unique_keys (filter f (map (fun kv => (fst kv, g (snd kv))) d)).
Proof.
  induction d as [|[k x] d IH]; [auto|]. intros [Hfresh Huniq].
  cbn [map filter fst snd]. destruct (f (k, g x)); [|now apply IH].
  cbn [unique_keys]. split; [|now apply IH].
  now apply dict_get_filter_map_none.
Qed.

(** X4: [del_empty_keys] keeps a tree well formed: dictionaries that bind
    each key once still do, and a normalized tree (leaves [None] or
    strings) stays normalized. *)
Theorem del_empty_keys_preserves (v : pyval) :
  (well_keyed v -> well_keyed (del_empty_keys v)) /\
  (normal v -> normal (del_empty_keys v)).
Proof.
  induction v as [a|l IH|d IH] using pyval_ind.
  - split; auto.
  - rewrite del_empty_keys_list, well_keyed_list, well_keyed_list,
      normal_list, normal_list.
    rewrite Forall_forall in IH.
    split; intros H; rewrite Forall_forall in *; intros x Hin;
      apply filter_In in Hin; destruct Hin as [Hin _];
      apply in_map_iff in Hin; destruct Hin as (y & <- & Hy);
      apply (IH y Hy); auto.
  - rewrite del_empty_keys_dict, well_keyed_dict, well_keyed_dict,
      normal_dict, normal_dict.
    rewrite Forall_forall in IH.
    split; intros [Huniq H];
      (split; [now apply unique_keys_filter_map|]);
      rewrite Forall_forall in *; intros kv Hin;
      apply filter_In in Hin; destruct Hin as [Hin _];
      apply in_map_iff in Hin; destruct Hin as (y & <- & Hy).
    + cbn [snd]. apply (IH y Hy). now apply H.
    + destruct (H y Hy) as [Hk Hv]. split; cbn [fst snd]; [exact Hk|].
      now apply (IH y Hy).
Qed.

(** ** [del_ignore_keys]: what it returns and when it raises *)

Lemma del_ignore_keys_outcome (src_dict : pyval) :
  forall del_dict,
    (exists d, del_ignore_keys src_dict del_dict = Ok (PDict d)) \/
    del_ignore_keys src_dict del_dict = Raise (UnboundLocalError "key").
Proof.
  induction src_dict as [a|l IH|d IH] using pyval_ind; intros del_dict.
  - left. now exists [].
  - destruct del_dict as [a|[|p [|q r]]|dd];
      try (left; now exists []).
    rewrite del_ignore_keys_list.
    assert (H : forall idx,
               (exists rd, list_loop p l idx = Ok rd) \/
               list_loop p l idx = Raise (UnboundLocalError "key")).
    { induction IH as [|x l Hx Hl IHl]; intros idx.
      - left. now exists [].
      - cbn [list_loop]. fold (list_loop p).
        destruct (IHl (idx + 1)) as [(rd & ->) | ->]; [|now right].
        cbn [bind].
        destruct (is_container x && is_container p).
        + destruct (Hx p) as [(r & ->) | ->]; [|now right].
          left. eexists. reflexivity.
        + destruct (py_in p empty_list_vals); [left; now exists rd|].
          destruct (py_eq p x); [left; now exists rd | now right]. }
    destruct (H 0) as [(rd & ->) | ->]; [left; now exists rd | now right].
  - destruct del_dict as [a|l|dd]; try (left; now exists []).
    rewrite del_ignore_keys_dict.
    assert (H : forall acc,
               (exists res, dict_loop dd d acc = Ok (PDict res)) \/
               dict_loop dd d acc = Raise (UnboundLocalError "key")).
    { induction IH as [|[k x] l Hx Hl IHl]; intros acc.
      - left. now exists acc.
      - cbn [dict_loop]. fold (dict_loop dd). cbn [snd] in Hx.
        destruct (dict_get dd k) as [dv|]; [|apply IHl].
        destruct (is_container x && is_container dv).
        + destruct (Hx dv) as [(r & ->) | ->]; [|now right].
          cbn [bind]. apply IHl.
        + destruct (py_in dv empty_dict_vals); [apply IHl|].
          destruct (py_eq dv x); apply IHl. }
    apply H.
Qed.

Lemma list_free_dict (d : pydict) :
  list_free (PDict d) <-> Forall (fun kv => list_free (snd kv)) d.
Proof.
  cbn [list_free]. induction d as [|[k x] d IH].
  - split; auto.
  - rewrite IH. split.
    + intros [Hx Hl]. now constructor.
    + intros H. inversion H; subst. now split.
Qed.

Lemma list_free_dict_get (d : pydict) (k : atom) (v : pyval) :
  list_free (PDict d) -> dict_get d k = Some v -> list_free v.
Proof.
  rewrite list_free_dict. induction 1 as [|[k0 x] d Hx Hd IH];
    cbn [dict_get]; [discriminate|].
  destruct (atom_eqb k0 k); [|exact IH].
  intros H. injection H as <-. exact Hx.
Qed.

(** With a list-free [del_dict] the list branch is never entered. *)
Lemma del_ignore_keys_total_del (src_dict : pyval) :
  forall del_dict,
    list_free del_dict ->
    exists d, del_ignore_keys src_dict del_dict = Ok (PDict d).
Proof.
  induction src_dict as [a|l IH|d IH] using pyval_ind;
    intros del_dict Hfree.
  - now exists [].
  - destruct del_dict as [a|r|dd]; [now exists [] | contradiction |].
    now exists [].
  - destruct del_dict as [a|r|dd]; [now exists [] | contradiction |].
    rewrite del_ignore_keys_dict.
    assert (H : forall acc, exists res, dict_loop dd d acc = Ok (PDict res)).
    { induction IH as [|[k x] l Hx Hl IHl]; intros acc.
      - now exists acc.
      - cbn [dict_loop]. fold (dict_loop dd). cbn [snd] in Hx.
        destruct (dict_get dd k) as [dv|] eqn:Hdv; [|apply IHl].
        destruct (is_container x && is_container dv).
        + destruct (Hx dv (list_free_dict_get dd k dv Hfree Hdv))
            as (r & ->).
          cbn [bind]. apply IHl.
        + destruct (py_in dv empty_dict_vals); [apply IHl|].
          destruct (py_eq dv x); apply IHl. }
    apply H.
Qed.

(** With a list-free [src_dict] likewise. *)
Lemma del_ignore_keys_total_src (src_dict : pyval) :
  list_free src_dict ->
  forall del_dict, exists d, del_ignore_keys src_dict del_dict = Ok (PDict d).
Proof.
  induction src_dict as [a|l IH|d IH] using pyval_ind;
    intros Hfree del_dict.
  - now exists [].
  - contradiction.
  - destruct del_dict as [a|r|dd]; [now exists [] | now exists [] |].
    rewrite del_ignore_keys_dict. apply list_free_dict in Hfree.
    assert (H : forall acc, exists res, dict_loop dd d acc = Ok (PDict res)).
    { induction IH as [|[k x] l Hx Hl IHl]; intros acc.
      - now exists acc.
      - inversion Hfree as [|? ? Hfx Hfl]; subst. cbn [snd] in Hx, Hfx.
        cbn [dict_loop]. fold (dict_loop dd).
        destruct (dict_get dd k) as [dv|]; [|now apply IHl].
        destruct (is_container x && is_container dv).
        + destruct (Hx Hfx dv) as (r & ->). cbn [bind]. now apply IHl.
        + destruct (py_in dv empty_dict_vals); [now apply IHl|].
          destruct (py_eq dv x); now apply IHl. }
    apply H.
Qed.

(** X5: [del_ignore_keys] either returns a dictionary or ends with
    [UnboundLocalError] for the local [key]: it never returns a list or a
    scalar, and never ends with another exception. *)
Theorem del_ignore_keys_results (src_dict del_dict : pyval) :
  match del_ignore_keys src_dict del_dict with
  | Ok r => exists d, r = PDict d
  | Raise e => e = UnboundLocalError "key"
  end.
Proof.
  destruct (del_ignore_keys_outcome src_dict del_dict) as [(d & ->) | ->].
  - now exists d.
  - reflexivity.
Qed.

(** X6: [del_ignore_keys] returns (a dictionary) whenever the source tree
    or the ignore tree contains no list: the failing keep operation sits
    in the list branch, which needs a list on both sides. *)
Theorem del_ignore_keys_total (src_dict del_dict : pyval) :
  list_free src_dict \/ list_free del_dict ->
  exists d, del_ignore_keys src_dict del_dict = Ok (PDict d).
Proof.
  intros [H | H].
  - now apply del_ignore_keys_total_src.
  - now apply del_ignore_keys_total_del.
Qed.

Lemma del_ignore_keys_total_witness :
  exists d,
    del_ignore_keys
      (PDict [(AStr "a", PList [PStr "x"; PStr "y"])])
      (PDict [(AStr "a", PDict [(AStr "b", PNone)])]) = Ok (PDict d).
Proof.
  apply del_ignore_keys_total. right. simpl. auto.
Defined.

Lemma list_loop_outcome (del_val : pyval) (l : list pyval) (idx : Z) :
  (exists rd, list_loop del_val l idx = Ok rd) \/
  list_loop del_val l idx = Raise (UnboundLocalError "key").
Proof.
  revert idx. induction l as [|x l IH]; intros idx.
  - left. now exists [].
  - cbn [list_loop]. fold (list_loop del_val).
    destruct (IH (idx + 1)) as [(rd & ->) | ->]; [|now right].
    cbn [bind]. destruct (is_container x && is_container del_val).
    + destruct (del_ignore_keys_outcome x del_val) as [(r & ->) | ->];
        [|now right].
      left. eexists. reflexivity.
    + destruct (py_in del_val empty_list_vals); [left; now exists rd|].
      destruct (py_eq del_val x); [left; now exists rd | now right].
Qed.

(** X7: on a list and a one-element pattern list, one element that is
    neither recursed into nor dropped makes the whole call end with
    [UnboundLocalError]: such an element is never kept. *)
Theorem del_ignore_keys_list_keep_always_raises
  (src : list pyval) (del_val x : pyval) :
  In x src -> reaches_keep del_val x = true ->
  del_ignore_keys (PList src) (PList [del_val]) =
  Raise (UnboundLocalError "key").
Proof.
  intros Hin Hkeep. rewrite del_ignore_keys_list.
  assert (H : forall idx,
             list_loop del_val src idx = Raise (UnboundLocalError "key")).
  { induction src as [|y l IH]; [contradiction|]. intros idx.
    cbn [list_loop]. fold (list_loop del_val).
    destruct Hin as [<- | Hin].
    - destruct (list_loop_outcome del_val l (idx + 1)) as [(rd & ->) | ->];
        [|reflexivity].
      cbn [bind]. unfold reaches_keep in Hkeep.
      apply andb_true_iff in Hkeep. destruct Hkeep as [Hkeep Hne].
      apply andb_true_iff in Hkeep. destruct Hkeep as [Hc He].
      apply negb_true_iff in Hc, He, Hne. now rewrite Hc, He, Hne.
    - now rewrite (IH Hin). }
  now rewrite H.
Qed.

Lemma del_ignore_keys_list_keep_always_raises_witness :
  del_ignore_keys (PList [PStr "a"; PStr "b"; PStr "a"]) (PList [PStr "a"]) =
  Raise (UnboundLocalError "key").
Proof.
  apply (del_ignore_keys_list_keep_always_raises _ _ (PStr "b")).
  - right. now left.
  - reflexivity.
Defined.

(** ** [del_ignore_keys] on dictionaries: the items that are kept *)

Lemma dict_loop_items (del : pydict) (l : pydict) :
  forall acc,
    unique_keys l ->
    (forall k, dict_get l k <> None -> dict_get acc k = None) ->
    (forall k sv dv,
        In (k, sv) l -> dict_get del k = Some dv ->
        is_container sv && is_container dv = true ->
        exists r, del_ignore_keys sv dv = Ok r) ->
    dict_loop del l acc = Ok (PDict (acc ++ kept_items del l)%list).
Proof.
  induction l as [|[k0 sv0] rest IH]; intros acc Huniq Hacc Hrec.
  - cbn. now rewrite app_nil_r.
  - destruct Huniq as [Hfresh Huniq].
    assert (Hrec' : forall k sv dv,
               In (k, sv) rest -> dict_get del k = Some dv ->
               is_container sv && is_container dv = true ->
               exists r, del_ignore_keys sv dv = Ok r).
    { intros k sv dv Hin. apply Hrec. now right. }
    assert (Hskip : dict_loop del rest acc =
                    Ok (PDict (acc ++ kept_items del rest)%list)).
    { apply IH; [exact Huniq | | exact Hrec'].
      intros k Hk. apply Hacc. cbn [dict_get].
      now destruct (atom_eqb k0 k). }
    assert (Hbind : forall x,
               dict_loop del rest (dict_set acc k0 x) =
               Ok (PDict (acc ++ (k0, x) :: kept_items del rest)%list)).
    { intros x. rewrite dict_set_fresh.
      - rewrite IH; [now rewrite <- app_assoc | exact Huniq | | exact Hrec'].
        intros k Hk. rewrite dict_get_app. cbn [dict_get].
        destruct (atom_eqb k0 k) eqn:E.
        + now rewrite <- (dict_get_eqb rest k0 k E) in Hk.
        + rewrite Hacc; [reflexivity|]. cbn [dict_get]. now rewrite E.
      - apply Hacc. cbn [dict_get]. rewrite atom_eqb_refl. discriminate. }
    specialize (Hrec k0 sv0). cbn [dict_loop]. fold (dict_loop del).
    unfold kept_items. cbn [flat_map]. fold (kept_items del rest).
    unfold kept_item, kept_value. cbn [fst snd].
    destruct (dict_get del k0) as [dv|]; [|apply Hbind].
    destruct (is_container sv0 && is_container dv) eqn:Hc.
    + destruct (Hrec dv (or_introl eq_refl) eq_refl Hc) as (r & ->).
      cbn [bind]. apply Hbind.
    + destruct (py_in dv empty_dict_vals); [exact Hskip|].
      destruct (py_eq dv sv0); [exact Hskip | apply Hbind].
Qed.

Lemma del_ignore_keys_kept_items (src del : pydict) :
  unique_keys src ->
  (forall k sv dv,
      In (k, sv) src -> dict_get del k = Some dv ->
      is_container sv && is_container dv = true ->
      exists r, del_ignore_keys sv dv = Ok r) ->
  del_ignore_keys (PDict src) (PDict del) = Ok (PDict (kept_items del src)).
Proof.
  intros Huniq Hrec. rewrite del_ignore_keys_dict.
  now rewrite (dict_loop_items del src [] Huniq).
Qed.

Lemma dict_get_kept_items_none (del src : pydict) (k : atom) :
  dict_get src k = None -> dict_get (kept_items del src) k = None.
Proof.
  induction src as [|[k0 sv0] src IH]; [reflexivity|].
  cbn [dict_get]. destruct (atom_eqb k0 k) eqn:E; [discriminate|].
  intros H. unfold kept_items. cbn [flat_map]. fold (kept_items del src).
  rewrite dict_get_app, (IH H). unfold kept_item. cbn [fst snd].
  destruct (kept_value (dict_get del k0) sv0); cbn [dict_get];
    rewrite ?E; reflexivity.
Qed.

Lemma unique_keys_kept_items (del src : pydict) :
  unique_keys src -> unique_keys (kept_items del src).
Proof.
  induction src as [|[k0 sv0] src IH]; [auto|]. intros [Hfresh Huniq].
  unfold kept_items. cbn [flat_map]. fold (kept_items del src).
  unfold kept_item. cbn [fst snd].
  destruct (kept_value (dict_get del k0) sv0); cbn [app]; [|now apply IH].
  split; [now apply dict_get_kept_items_none | now apply IH].
Qed.

(** X8: on a dictionary, an empty ignore dictionary changes nothing:
    [del_ignore_keys] returns a dictionary with the same items in the same
    order. *)
Theorem del_ignore_keys_empty_spec (src : pydict) :
  unique_keys src ->
  del_ignore_keys (PDict src) (PDict []) = Ok (PDict src).
Proof.
  intros Huniq. rewrite del_ignore_keys_kept_items; [|exact Huniq|].
  - do 2 f_equal. unfold kept_items.
    induction src as [|[k v] src IH]; [reflexivity|].
    cbn [flat_map]. destruct Huniq as [_ Huniq]. now rewrite (IH Huniq).
  - intros k sv dv _ Hd. discriminate Hd.
Qed.

Lemma del_ignore_keys_empty_spec_witness :
  del_ignore_keys
    (PDict [(AStr "a", PStr "1"); (AStr "b", PList [PStr "x"])])
    (PDict []) =
  Ok (PDict [(AStr "a", PStr "1"); (AStr "b", PList [PStr "x"])]).
Proof.
  apply del_ignore_keys_empty_spec. simpl. auto.
Defined.

(** X9: the dictionary that [del_ignore_keys] returns for two
    dictionaries binds each key once, and its keys are keys of
    [src_dict] in their original order. *)
Theorem del_ignore_keys_keys (src del res : pydict) :
  unique_keys src ->
  del_ignore_keys (PDict src) (PDict del) = Ok (PDict res) ->
  unique_keys res /\
  exists keep : atom -> bool, map fst res = filter keep (map fst src).
Proof.
  intros Huniq Hres.
  assert (Hkept : res = kept_items del src).
  { assert (Hrec : forall k sv dv,
               In (k, sv) src -> dict_get del k = Some dv ->
               is_container sv && is_container dv = true ->
               exists r, del_ignore_keys sv dv = Ok r).
    { (* a nested call that raised would have ended the whole call *)
      rewrite del_ignore_keys_dict in Hres. clear Huniq.
      generalize dependent (@nil (atom * pyval)).
      induction src as [|[k0 sv0] src IH]; intros acc Hres k sv dv Hin Hd Hc;
        [contradiction|].
      cbn [dict_loop] in Hres. fold (dict_loop del) in Hres.
      destruct Hin as [Heq | Hin].
      - injection Heq as -> ->. rewrite Hd, Hc in Hres.
        destruct (del_ignore_keys sv dv) as [r|e]; [now exists r|].
        discriminate Hres.
      - destruct (dict_get del k0) as [dv0|];
          [|exact (IH _ Hres k sv dv Hin Hd Hc)].
        destruct (is_container sv0 && is_container dv0).
        + destruct (del_ignore_keys sv0 dv0) as [r|e]; [|discriminate Hres].
          exact (IH _ Hres k sv dv Hin Hd Hc).
        + destruct (py_in dv0 empty_dict_vals);
            [exact (IH _ Hres k sv dv Hin Hd Hc)|].
          destruct (py_eq dv0 sv0); exact (IH _ Hres k sv dv Hin Hd Hc). }
    rewrite (del_ignore_keys_kept_items src del Huniq Hrec) in Hres.
    now injection Hres as <-. }
  subst res. split; [now apply unique_keys_kept_items|].
  exists (fun k => match dict_get src k with
                   | Some sv =>
                       match kept_value (dict_get del k) sv with
                       | Some _ => true
                       | None => false
                       end
                   | None => false
                   end).
  clear Hres. induction src as [|[k0 sv0] src IH]; [reflexivity|].
  destruct Huniq as [Hfresh Huniq].
  unfold kept_items. cbn [flat_map map fst filter dict_get].
  fold (kept_items del src). rewrite atom_eqb_refl, map_app.
  assert (Htail :
            filter (fun k => match (if atom_eqb k0 k then Some sv0
                                    else dict_get src k) with
                             | Some sv =>
                                 match kept_value (dict_get del k) sv with
                                 | Some _ => true
                                 | None => false
                                 end
                             | None => false
                             end) (map fst src) =
            map fst (kept_items del src)).
  { rewrite (IH Huniq). apply filter_ext_in. intros k Hk.
    destruct (atom_eqb k0 k) eqn:E; [|reflexivity].
    exfalso. apply in_map_iff in Hk. destruct Hk as ([k' v'] & <- & Hin).
    cbn [fst] in E. rewrite (dict_get_eqb src k0 k' E) in Hfresh.
    clear -Hin Hfresh. induction src as [|[k1 v1] src IH]; [contradiction|].
    cbn [dict_get] in Hfresh. destruct Hin as [Heq | Hin].
    - injection Heq as -> ->. now rewrite atom_eqb_refl in Hfresh.
    - destruct (atom_eqb k1 k'); [discriminate | now apply IH]. }
  unfold kept_item. cbn [fst snd].
  destruct (kept_value (dict_get del k0) sv0); cbn [map fst app];
    now rewrite Htail.
Qed.

Lemma del_ignore_keys_keys_witness :
  unique_keys [(AStr "a", PStr "1")] /\
  exists keep : atom -> bool,
    map fst [(AStr "a", PStr "1")] =
    filter keep (map fst [(AStr "a", PStr "1"); (AStr "b", PStr "2")]).
Proof.
  apply (del_ignore_keys_keys
           [(AStr "a", PStr "1"); (AStr "b", PStr "2")]
           [(AStr "b", PNone)]).
  - simpl. auto.
  - reflexivity.
Defined.

Lemma kept_items_app (del a b : pydict) :
  kept_items del (a ++ b)%list = (kept_items del a ++ kept_items del b)%list.
Proof. apply flat_map_app. Qed.

Lemma del_ignore_keys_idempotent_rec (src_dict : pyval) :
  forall del_dict r,
    well_keyed src_dict -> list_free del_dict ->
    del_ignore_keys src_dict del_dict = Ok r ->
    del_ignore_keys r del_dict = Ok r.
Proof.
  induction src_dict as [a|l IH|d IH] using pyval_ind;
    intros del_dict r Hwk Hfree Hres.
  - injection Hres as <-. apply del_ignore_keys_empty_dict.
  - destruct del_dict as [a|q|dd]; [|contradiction|];
      injection Hres as <-; reflexivity.
  - destruct del_dict as [a|q|dd]; [|contradiction|];
      try (injection Hres as <-; reflexivity).
    apply well_keyed_dict in Hwk. destruct Hwk as [Huniq Hvals].
    assert (Hrec : forall src k sv dv,
               In (k, sv) src -> dict_get dd k = Some dv ->
               is_container sv && is_container dv = true ->
               exists r, del_ignore_keys sv dv = Ok r).
    { intros src k sv dv _ Hd _.
      destruct (del_ignore_keys_total_del sv dv
                  (list_free_dict_get dd k dv Hfree Hd)) as (x & Hx).
      now exists (PDict x). }
    rewrite (del_ignore_keys_kept_items d dd Huniq (Hrec d)) in Hres.
    injection Hres as <-.
    rewrite (del_ignore_keys_kept_items (kept_items dd d) dd
               (unique_keys_kept_items dd d Huniq) (Hrec _)).
    do 2 f_equal. clear Huniq.
    induction d as [|[k sv] d IHd]; [reflexivity|].
    inversion IH as [|? ? Hsv Hd]; subst.
    inversion Hvals as [|? ? Hwsv Hwd]; subst. cbn [snd] in Hsv, Hwsv.
    unfold kept_items at 2 3. cbn [flat_map]. fold (kept_items dd d).
    rewrite kept_items_app, (IHd Hd Hwd). f_equal.
    unfold kept_item. cbn [fst snd].
    destruct (kept_value (dict_get dd k) sv) as [x|] eqn:Hkept;
      [|reflexivity].
    unfold kept_items. cbn [flat_map]. rewrite app_nil_r.
    unfold kept_item. cbn [fst snd].
    enough (Hx : kept_value (dict_get dd k) x = Some x) by now rewrite Hx.
    unfold kept_value in *.
    destruct (dict_get dd k) as [dv|] eqn:Hdv; [|reflexivity].
    destruct (is_container sv && is_container dv) eqn:Hc.
    + destruct (del_ignore_keys sv dv) as [r|e] eqn:Hr; [|discriminate].
      injection Hkept as <-.
      apply andb_true_iff in Hc. destruct Hc as [_ Hdvc].
      destruct (del_ignore_keys_outcome sv dv) as [(x & Hx) | Hx];
        rewrite Hx in Hr; [|discriminate].
      injection Hr as <-. cbn [is_container andb]. rewrite Hdvc.
      now rewrite (Hsv dv (PDict x) Hwsv
                     (list_free_dict_get dd k dv Hfree Hdv) Hx).
    + destruct (py_in dv empty_dict_vals); [discriminate|].
      destruct (py_eq dv sv) eqn:He; [discriminate|].
      injection Hkept as <-. now rewrite Hc, He.
Qed.

(** X10: with an ignore tree that contains no list, [del_ignore_keys] is
    idempotent on a tree whose dictionaries bind each key once: pruning
    the pruned tree again returns it unchanged. *)
Theorem del_ignore_keys_idempotent (src_dict del_dict : pyval) :
  well_keyed src_dict -> list_free del_dict ->
  exists r,
    del_ignore_keys src_dict del_dict = Ok r /\
    del_ignore_keys r del_dict = Ok r.
Proof.
  intros Hwk Hfree.
  destruct (del_ignore_keys_total_del src_dict del_dict Hfree) as (d & Hd).
  exists (PDict d). split; [exact Hd|].
  now apply (del_ignore_keys_idempotent_rec src_dict).
Qed.

Lemma del_ignore_keys_idempotent_witness :
  exists r,
    del_ignore_keys
      (PDict [(AStr "a", PStr "1");
              (AStr "b", PDict [(AStr "c", PStr "t"); (AStr "d", PStr "u")])])
      (PDict [(AStr "b", PDict [(AStr "c", PNone)])]) = Ok r /\
    del_ignore_keys r (PDict [(AStr "b", PDict [(AStr "c", PNone)])]) = Ok r.
Proof.
  apply del_ignore_keys_idempotent; simpl; repeat split.
Defined.

(** Without the restriction the second pass can differ: a list pruned by
    a one-element pattern list has become a dictionary keyed by index,
    which the same pattern then replaces by the empty dictionary. *)
Lemma del_ignore_keys_not_idempotent_on_lists :
  del_ignore_keys
    (PDict [(AStr "k", PList [PDict [(AStr "a", PStr "1")]])])
    (PDict [(AStr "k", PList [PDict [(AStr "a", PNone)]])]) =
  Ok (PDict [(AStr "k", PDict [(AInt 0, PDict [])])]) /\
  del_ignore_keys
    (PDict [(AStr "k", PDict [(AInt 0, PDict [])])])
    (PDict [(AStr "k", PList [PDict [(AStr "a", PNone)]])]) =
  Ok (PDict [(AStr "k", PDict [])]).
Proof. split; reflexivity. Qed.

Lemma dict_loop_ignored_key (del : pydict) (k : atom) (dv : pyval) :
  dict_get del k = Some dv ->
  is_container dv = false -> py_in dv empty_dict_vals = true ->
  forall src v v' acc,
    dict_loop del (dict_set src k v) acc =
    dict_loop del (dict_set src k v') acc.
Proof.
  intros Hd Hdv Hempty.
  assert (Hdrop : forall k' x rest acc,
             atom_eqb k' k = true ->
             dict_loop del ((k', x) :: rest) acc = dict_loop del rest acc).
  { intros k' x rest acc E. cbn [dict_loop]. fold (dict_loop del).
    rewrite (dict_get_eqb del k' k E), Hd, Hdv, andb_false_r.
    now rewrite Hempty. }
  induction src as [|[k0 v0] src IH]; intros v v' acc.
  - cbn [dict_set]. now rewrite !Hdrop by apply atom_eqb_refl.
  - cbn [dict_set]. destruct (atom_eqb k0 k) eqn:E.
    + now rewrite !Hdrop by exact E.
    + cbn [dict_loop]. fold (dict_loop del).
      destruct (dict_get del k0) as [dv0|]; [|apply IH].
      destruct (is_container v0 && is_container dv0).
      * destruct (del_ignore_keys v0 dv0); [apply IH | reflexivity].
      * destruct (py_in dv0 empty_dict_vals); [apply IH|].
        destruct (py_eq dv0 v0); apply IH.
Qed.

(** X11: the value of an ignored key does not matter: when the ignore
    dictionary binds a key to [None] or to one of the strings [''],
    ['[]'], ['{}'], two source dictionaries that differ only in the value
    of that key are pruned to the same result. *)
Theorem del_ignore_keys_ignored_value
  (src del : pydict) (k : atom) (dv v v' : pyval) :
  dict_get del k = Some dv ->
  dv = PNone \/ dv = PStr "" \/ dv = PStr "[]" \/ dv = PStr "{}" ->
  del_ignore_keys (PDict (dict_set src k v)) (PDict del) =
  del_ignore_keys (PDict (dict_set src k v')) (PDict del).
Proof.
  intros Hd Hdv. rewrite !del_ignore_keys_dict.
  apply (dict_loop_ignored_key del k dv Hd);
    destruct Hdv as [-> | [-> | [-> | ->]]]; reflexivity.
Qed.

Lemma del_ignore_keys_ignored_value_witness :
  del_ignore_keys
    (PDict [(AStr "a", PStr "1"); (AStr "stamp", PStr "monday")])
    (PDict [(AStr "stamp", PNone)]) =
  del_ignore_keys
    (PDict [(AStr "a", PStr "1"); (AStr "stamp", PList [PStr "tuesday"])])
    (PDict [(AStr "stamp", PNone)]).
Proof.
  apply (del_ignore_keys_ignored_value
           [(AStr "a", PStr "1"); (AStr "stamp", PStr "x")]
           [(AStr "stamp", PNone)] (AStr "stamp") PNone
           (PStr "monday") (PList [PStr "tuesday"])).
  - reflexivity.
  - now left.
Defined.


(** ** [__normalize]: its image *)

Lemma normal_well_keyed (v : pyval) : normal v -> well_keyed v.
Proof.
  induction v as [a|l IH|d IH] using pyval_ind; intros Hn.
  - exact I.
  - apply normal_list in Hn. apply well_keyed_list.
    rewrite Forall_forall in *. auto.
  - apply normal_dict in Hn. destruct Hn as [Huniq Hitems].
    apply well_keyed_dict. split; [exact Huniq|].
    rewrite Forall_forall in *. intros kv Hin.
    apply (IH kv Hin). now apply Hitems.
Qed.

(** X12: whatever it is given, [__normalize] returns a tree whose leaves
    and keys are [None] or strings other than ['null'], ['Null'] and
    ['NULL'] (no boolean or integer is left), and whose dictionaries bind
    each key once. *)
Theorem normalize_image (obj : pyval) :
  normal (normalize obj) /\ well_keyed (normalize obj).
Proof.
  split; [apply normal_normalize|].
  apply normal_well_keyed, normal_normalize.
Qed.

(** X13: three passes of [__normalize] equal one: on its image the
    function is an involution, the second pass undoing the exchange of
    [None] and ['None'] made by the first. *)
Theorem normalize_three_passes (obj : pyval) :
  normalize (normalize (normalize obj)) = normalize obj.
Proof. apply normalize_normalize_normal, normal_normalize. Qed.

Lemma dict_get_fold_dict_set (l : pydict) :
  forall acc k,
    dict_get (fold_left (fun d kv => dict_set d (fst kv) (snd kv)) l acc) k =
    match dict_get (rev l) k with
    | Some v => Some v
    | None => dict_get acc k
    end.
Proof.
  induction l as [|[k0 v0] l IH]; intros acc k; [reflexivity|].
  cbn [fold_left fst snd rev]. rewrite IH, dict_get_set, dict_get_app.
  cbn [dict_get].
  destruct (dict_get (rev l) k); [reflexivity|].
  now destruct (atom_eqb k0 k).
Qed.

(** X14: last write wins in [__normalize]: the dictionary it builds binds
    a key to the normalized value of the last item of the input whose
    normalized key equals it, so items whose keys normalize to the same
    key (such as [1] and ['1']) are merged. *)
Theorem normalize_dict_last_wins (d : pydict) :
  exists d',
    normalize (PDict d) = PDict d' /\
    unique_keys d' /\
    forall k, dict_get d' k = dict_get (rev (map normalize_item d)) k.
Proof.
  exists (dict_of (map normalize_item d)).
  split; [apply normalize_dict|]. split.
  - pose proof (normal_normalize (PDict d)) as Hn.
    rewrite normalize_dict in Hn. now apply normal_dict in Hn.
  - intros k. unfold dict_of. rewrite dict_get_fold_dict_set.
    now destruct (dict_get (rev (map normalize_item d)) k).
Qed.

Lemma text_tree_list (l : list pyval) :
  text_tree (PList l) <-> Forall text_tree l.
Proof.
  cbn [text_tree]. induction l as [|x l IH].
  - split; auto.
  - rewrite IH. split.
    + intros [Hx Hl]. now constructor.
    + intros H. inversion H; subst. now split.
Qed.

Lemma text_tree_dict (d : pydict) :
  text_tree (PDict d) <->
  unique_keys d /\
  Forall (fun kv => text_atom (fst kv) /\ text_tree (snd kv)) d.
Proof.
  cbn [text_tree]. apply and_iff_compat_l.
  induction d as [|[k x] d IH].
  - split; auto.
  - rewrite IH. split.
    + intros (Hk & Hx & Hl). constructor; [now split | exact Hl].
    + intros H. inversion H as [|? ? [Hk Hx] Hl]; subst. now repeat split.
Qed.

Lemma normalize_key_text (a : atom) : text_atom a -> normalize_key a = a.
Proof.
  destruct a as [| | |s]; cbn [text_atom]; try contradiction.
  intros H. unfold normalize_key. now rewrite H.
Qed.

(** X15: [__normalize] leaves a tree of ordinary strings unchanged: when
    every leaf and key is a string other than the four null tokens (and
    dictionaries bind each key once), the result is the tree itself. *)
Theorem normalize_text_tree (v : pyval) :
  text_tree v -> normalize v = v.
Proof.
  induction v as [a|l IH|d IH] using pyval_ind; intros Ht.
  - rewrite normalize_atom. f_equal. now apply normalize_key_text.
  - apply text_tree_list in Ht. rewrite normalize_list. f_equal.
    apply map_fixed. rewrite Forall_forall in *. auto.
  - apply text_tree_dict in Ht. destruct Ht as [Huniq Hitems].
    rewrite normalize_dict.
    assert (Hmap : map normalize_item d = d).
    { apply map_fixed. rewrite Forall_forall in *. intros [k x] Hin.
      destruct (Hitems _ Hin) as [Hk Hx]. cbn [fst snd] in Hk, Hx.
      unfold normalize_item. cbn [fst snd].
      rewrite (normalize_key_text k Hk).
      pose proof (IH _ Hin Hx) as E. cbn [snd] in E. now rewrite E. }
    rewrite Hmap. now rewrite dict_of_unique.
Qed.

Lemma normalize_text_tree_witness :
  normalize
    (PDict [(AStr "a", PStr "1"); (AStr "b", PList [PStr "x"; PStr ""])]) =
  PDict [(AStr "a", PStr "1"); (AStr "b", PList [PStr "x"; PStr ""])].
Proof.
  apply normalize_text_tree. simpl. repeat split.
Defined.

(** ** The text codec *)

(** X16: [__yaml_str_to_dict] fails exactly when [yaml.load] does, with
    [fail_json]; otherwise it returns a normalized tree, which is never
    [None]. *)
Theorem yaml_str_to_dict_outcome
  (load : string -> option pyval) (s : string) :
  match yaml_str_to_dict load s with
  | Ok t => load s <> None /\ normal t /\ t <> PNone
  | Raise e => load s = None /\ e = FailJson
  end.
Proof.
  destruct (load s) as [obj|] eqn:Hload.
  - rewrite (yaml_str_to_dict_loaded load s obj Hload).
    split; [discriminate|]. split.
    + apply normal_top_level, normal_normalize.
    + now destruct (normalize obj) as [[| | |]| |].
  - unfold yaml_str_to_dict. rewrite Hload. now split.
Qed.

(** X17: a dictionary handed to [yaml2dict] is normalized twice (once
    before it is dumped, once after it is loaded again), so a normalized
    dictionary comes back equal to itself ([==]), with its [None] leaves
    still [None]; this assumes that PyYAML reads back a value [u] equal
    to the dictionary it dumped (as every Python value, [u] binds a key
    once in each of its dictionaries). *)
Theorem yaml2dict_of_dict
  (load : string -> option pyval) (dump : pyval -> string)
  (d : pydict) (u : pyval) :
  load (dump (normalize (PDict d))) = Some u ->
  well_keyed u ->
  py_eq u (normalize (PDict d)) = true ->
  exists t,
    yaml2dict load dump (FromDict d) = Ok t /\
    py_eq t (normalize (normalize (PDict d))) = true /\
    (normal (PDict d) -> py_eq t (PDict d) = true).
Proof.
  intros Hyaml Hu Heq.
  pose proof (normalize_read_back u (normalize (PDict d))
                (normal_normalize (PDict d)) Hu Heq) as E.
  exists (normalize u). split; [|split].
  - cbn [yaml2dict]. unfold dict_to_yaml_str.
    rewrite (yaml_str_to_dict_loaded load _ _ Hyaml).
    apply f_equal, (top_level_py_eq _ (normalize (normalize (PDict d))));
      [|exact E].
    now rewrite (normalize_dict d), (normalize_dict (dict_of _)).
  - exact E.
  - intros Hn. now rewrite (normalize_normalize_normal _ Hn) in E.
Qed.

Lemma yaml2dict_of_dict_witness :
  exists t,
    yaml2dict PyYAMLBlock.load PyYAMLBlock.dump
      (FromDict [(AStr "b", PStr "x"); (AStr "a", PNone)]) = Ok t /\
    py_eq t (normalize (normalize
               (PDict [(AStr "b", PStr "x"); (AStr "a", PNone)]))) = true /\
    (normal (PDict [(AStr "b", PStr "x"); (AStr "a", PNone)]) ->
     py_eq t (PDict [(AStr "b", PStr "x"); (AStr "a", PNone)]) = true).
Proof.
  apply (yaml2dict_of_dict PyYAMLBlock.load PyYAMLBlock.dump
           [(AStr "b", PStr "x"); (AStr "a", PNone)]
           (PDict [(AStr "a", PStr "None"); (AStr "b", PStr "x")]));
    [reflexivity | | reflexivity].
  cbn [well_keyed unique_keys dict_get atom_eqb String.eqb Ascii.eqb
       Bool.eqb].
  repeat split.
Defined.

(** ** [main] *)

Lemma main_loaded
  (load : string -> option pyval) (dump : pyval -> string)
  (source target : string) (ignore_keys : pydict) (ignore_empty : bool)
  (ig so ta : pyval) :
  load (dump (normalize (PDict ignore_keys))) = Some ig ->
  load source = Some so ->
  load target = Some ta ->
  main load dump source target ignore_keys ignore_empty =
  (s <- del_ignore_keys (top_level (normalize so))
                        (top_level (normalize ig)) ;;
   t <- del_ignore_keys (top_level (normalize ta))
                        (top_level (normalize ig)) ;;
   let t := if ignore_empty then del_empty_keys t else t in
   Ok {| before := dump (normalize t);
         after := dump (normalize s);
         changed := negb (String.eqb (dump (normalize s))
                                     (dump (normalize t))) |}).
Proof.
  intros Hi Hs Ht. unfold main, yaml2dict, dict_to_yaml_str.
  rewrite (yaml_str_to_dict_loaded _ _ _ Hi).
  rewrite (yaml_str_to_dict_loaded _ _ _ Hs).
  rewrite (yaml_str_to_dict_loaded _ _ _ Ht).
  reflexivity.
Qed.

(** X18: [main] only compares dictionaries: when neither the source nor
    the target text loads as a dictionary (each is a scalar or a list)
    and the ignore dictionary is read back as a dictionary, the module
    reports no change and renders both sides as the dump of [{}],
    whatever the two texts are. *)
Theorem main_only_compares_dicts
  (load : string -> option pyval) (dump : pyval -> string)
  (source target : string) (ignore_keys : pydict) (ignore_empty : bool)
  (ig so ta : pyval) :
  load (dump (normalize (PDict ignore_keys))) = Some ig ->
  load source = Some so ->
  load target = Some ta ->
  is_dict ig = true -> is_dict so = false -> is_dict ta = false ->
  main load dump source target ignore_keys ignore_empty =
  Ok {| before := dump (PDict []);
        after := dump (PDict []);
        changed := false |}.
Proof.
  intros Hi Hs Ht Hig Hso Hta.
  rewrite (main_loaded load dump source target ignore_keys ignore_empty
             ig so ta Hi Hs Ht).
  destruct ig as [a|l|d]; try discriminate Hig.
  rewrite (normalize_dict d). cbn [top_level].
  assert (H : forall v, is_dict v = false ->
                        forall del,
                          del_ignore_keys (top_level (normalize v))
                                          (PDict del) = Ok (PDict [])).
  { intros [a|l|d'] Hv del; try discriminate Hv.
    - rewrite normalize_atom. now destruct (normalize_key a).
    - now rewrite normalize_list. }
  rewrite (H so Hso), (H ta Hta). cbn [bind].
  assert (Hprune : (if ignore_empty then del_empty_keys (PDict [])
                    else PDict []) = PDict []) by now destruct ignore_empty.
  rewrite Hprune. change (normalize (PDict [])) with (PDict []).
  now rewrite String.eqb_refl.
Qed.

Lemma main_only_compares_dicts_witness :
  main PyYAML.load PyYAML.dump "[]" "bar" [] true =
  Ok {| before := "{}" ++ PyYAML.newline;
        after := "{}" ++ PyYAML.newline;
        changed := false |}.
Proof.
  apply (main_only_compares_dicts PyYAML.load PyYAML.dump "[]" "bar" [] true
           (PDict []) (PList []) (PStr "bar")); reflexivity.
Defined.

(** With nothing to ignore, [del_ignore_keys] returns a dictionary as it
    is, and the empty dictionary for anything else. *)
Lemma del_ignore_keys_nothing_ignored (src : pyval) :
  normal src ->
  del_ignore_keys src (PDict []) =
  Ok (if is_dict src then src else PDict []).
Proof.
  destruct src as [a|l|d]; [reflexivity | reflexivity |].
  intros Hn. apply normal_dict in Hn. destruct Hn as [Huniq _].
  rewrite del_ignore_keys_kept_items; [|exact Huniq|].
  - cbn [is_dict]. do 2 f_equal. unfold kept_items.
    clear Huniq. induction d as [|[k v] d IH]; [reflexivity|].
    cbn [flat_map]. now rewrite IH.
  - intros k sv dv _ Hd. discriminate Hd.
Qed.

(** What [main] compares when no key is ignored (the default of
    [diff_ignore_keys]) and the empty ignore dictionary is read back as
    it was dumped. *)
Lemma main_nothing_ignored
  (load : string -> option pyval) (dump : pyval -> string)
  (source target : string) (ignore_empty : bool) (so ta : pyval) :
  load (dump (PDict [])) = Some (PDict []) ->
  load source = Some so ->
  load target = Some ta ->
  main load dump source target [] ignore_empty =
  let s := if is_dict (normalize so) then normalize so else PDict [] in
  let t := if is_dict (normalize ta) then normalize ta else PDict [] in
  let t := if ignore_empty then del_empty_keys t else t in
  Ok {| before := dump (normalize t);
        after := dump (normalize s);
        changed := negb (String.eqb (dump (normalize s))
                                    (dump (normalize t))) |}.
Proof.
  intros Hi Hs Ht.
  rewrite (main_loaded load dump source target [] ignore_empty
             (PDict []) so ta Hi Hs Ht).
  change (top_level (normalize (PDict []))) with (PDict []).
  assert (H : forall v,
             del_ignore_keys (top_level (normalize v)) (PDict []) =
             Ok (if is_dict (normalize v) then normalize v else PDict [])).
  { intros v. pose proof (normal_normalize v) as Hn.
    destruct (normalize v) as [[| | |]|l|d] eqn:E; try reflexivity.
    cbn [top_level].
    now rewrite (del_ignore_keys_nothing_ignored (PDict d) Hn). }
  now rewrite (H so), (H ta).
Qed.

(** X19: with [diff_ignore_empty] on and no key to ignore, a text is not
    reported as changed against itself when its normalized tree holds no
    empty value (no value of a dictionary from [__empty_dict_vals], no
    element of a list from [__empty_list_vals]); the empty ignore
    dictionary is assumed to be read back as it was dumped.  Pruning runs
    on the target only, so the two sides are the same text because there
    is nothing to prune. *)
Theorem main_same_text_ignore_empty
  (load : string -> option pyval) (dump : pyval -> string)
  (text : string) (so : pyval) :
  load (dump (PDict [])) = Some (PDict []) ->
  load text = Some so ->
  pruned (normalize so) ->
  exists r,
    main load dump text text [] true = Ok r /\
    changed r = false /\ before r = after r.
Proof.
  intros Hi Hs Hp.
  rewrite (main_nothing_ignored load dump text text true so so Hi Hs Hs).
  cbv zeta.
  assert (E : del_empty_keys
                (if is_dict (normalize so) then normalize so else PDict []) =
              (if is_dict (normalize so) then normalize so else PDict [])).
  { destruct (is_dict (normalize so)); [|reflexivity].
    now apply del_empty_keys_pruned. }
  rewrite E. eexists. split; [reflexivity|].
  cbn [changed before after]. now rewrite String.eqb_refl.
Qed.

Lemma main_same_text_ignore_empty_witness :
  exists r,
    main PyYAMLBlock.load PyYAMLBlock.dump
      ("b: x" ++ PyYAML.newline ++ "a: null" ++ PyYAML.newline)
      ("b: x" ++ PyYAML.newline ++ "a: null" ++ PyYAML.newline)
      [] true = Ok r /\
    changed r = false /\ before r = after r.
Proof.
  apply (main_same_text_ignore_empty PyYAMLBlock.load PyYAMLBlock.dump
           ("b: x" ++ PyYAML.newline ++ "a: null" ++ PyYAML.newline)
           (PDict [(AStr "b", PStr "x"); (AStr "a", PNone)]));
    [reflexivity | reflexivity |].
  vm_compute. repeat split.
Defined.

(** The same text can be reported as changed against itself once it
    holds an empty value: the target loses the key, the source keeps
    it. *)
Lemma main_same_text_reported_changed :
  main PyYAMLBlock.load PyYAMLBlock.dump
    ("a: []" ++ PyYAML.newline ++ "b: x" ++ PyYAML.newline)
    ("a: []" ++ PyYAML.newline ++ "b: x" ++ PyYAML.newline)
    [] true =
  Ok {| before := "b: x" ++ PyYAML.newline;
        after := "a: []" ++ PyYAML.newline ++ "b: x" ++ PyYAML.newline;
        changed := true |}.
Proof. reflexivity. Qed.

Lemma normalize_text_keys (d : pydict) :
  unique_keys d -> Forall (fun kv => text_atom (fst kv)) d ->
  normalize (PDict d) =
  PDict (map (fun kv => (fst kv, normalize (snd kv))) d).
Proof.
  intros Huniq Hkeys. rewrite normalize_dict.
  assert (E : map normalize_item d =
              map (fun kv => (fst kv, normalize (snd kv))) d).
  { apply map_ext_in. intros kv Hin. rewrite Forall_forall in Hkeys.
    unfold normalize_item. now rewrite (normalize_key_text _ (Hkeys _ Hin)). }
  rewrite E. f_equal. apply dict_of_unique.
  now apply (unique_keys_filter_map (fun _ => true) normalize d) in Huniq;
    rewrite filter_all in Huniq by (apply Forall_forall; auto).
Qed.

Lemma dict_get_map_values (g : pyval -> pyval) (d : pydict) (k : atom) :
  dict_get (map (fun kv => (fst kv, g (snd kv))) d) k =
  match dict_get d k with
  | Some v => Some (g v)
  | None => None
  end.
Proof.
  induction d as [|[k0 v0] d IH]; [reflexivity|].
  cbn [map dict_get fst snd]. now destruct (atom_eqb k0 k).
Qed.

Lemma text_keys_filter_map
  (f : atom * pyval -> bool) (g : pyval -> pyval) (d : pydict) :
  Forall (fun kv => text_atom (fst kv)) d ->
  Forall (fun kv => text_atom (fst kv))
         (filter f (map (fun kv => (fst kv, g (snd kv))) d)).
Proof.
  intros Hkeys. apply Forall_forall. intros kv Hin.
  apply filter_In in Hin. destruct Hin as [Hin _].
  apply in_map_iff in Hin. destruct Hin as (kv' & <- & Hin).
  rewrite Forall_forall in Hkeys. exact (Hkeys _ Hin).
Qed.

(** The dictionary that [main] renders as [before] when the target is a
    dictionary with string keys, nothing is ignored and
    [diff_ignore_empty] is on: each value is normalized, pruned, dropped
    if that leaves an empty value, and normalized again. *)
Lemma rendered_target (d : pydict) :
  unique_keys d -> Forall (fun kv => text_atom (fst kv)) d ->
  exists d',
    normalize (del_empty_keys (normalize (PDict d))) = PDict d' /\
    forall k,
      dict_get d' k =
      match dict_get d k with
      | Some v =>
          if py_in (del_empty_keys (normalize v)) empty_dict_vals then None
          else Some (normalize (del_empty_keys (normalize v)))
      | None => None
      end.
Proof.
  intros Huniq Hkeys.
  rewrite (normalize_text_keys d Huniq Hkeys), del_empty_keys_dict.
  set (nd := map (fun kv => (fst kv, normalize (snd kv))) d).
  assert (Hnd : unique_keys nd).
  { apply (unique_keys_filter_map (fun _ => true) normalize d) in Huniq.
    now rewrite filter_all in Huniq by (apply Forall_forall; auto). }
  set (pd := filter (fun kv => negb (py_in (snd kv) empty_dict_vals))
               (map (fun kv => (fst kv, del_empty_keys (snd kv))) nd)).
  assert (Hpd : unique_keys pd) by now apply unique_keys_filter_map.
  assert (Hkpd : Forall (fun kv => text_atom (fst kv)) pd).
  { apply text_keys_filter_map.
    apply (text_keys_filter_map (fun _ => true) normalize d) in Hkeys.
    now rewrite filter_all in Hkeys by (apply Forall_forall; auto). }
  rewrite (normalize_text_keys pd Hpd Hkpd).
  eexists. split; [reflexivity|]. intros k.
  rewrite dict_get_map_values. unfold pd.
  rewrite (dict_get_del_empty_keys nd k Hnd). unfold nd.
  rewrite dict_get_map_values.
  destruct (dict_get d k) as [v|]; [|reflexivity].
  now destruct (py_in (del_empty_keys (normalize v)) empty_dict_vals).
Qed.

(** X20: what [diff_ignore_empty] makes of the values of the target,
    when the target is a dictionary with string keys and no key is
    ignored.  A key bound to a YAML null is not dropped: [yaml2dict] has
    turned the [None] into the string ['None'], which is in neither
    table, and [dict2yaml] renders it as [None] again.  A key bound to
    one of the strings ['None'], ['null'], ['Null'], ['NULL'] is
    dropped, as is a key bound to [''], ['[]'], ['{}'], [[]] or [{}]. *)
Theorem main_ignore_empty_keeps_null
  (load : string -> option pyval) (dump : pyval -> string)
  (source target : string) (so : pyval) (d : pydict) :
  load (dump (PDict [])) = Some (PDict []) ->
  load source = Some so ->
  load target = Some (PDict d) ->
  unique_keys d ->
  Forall (fun kv => text_atom (fst kv)) d ->
  exists r d',
    main load dump source target [] true = Ok r /\
    before r = dump (PDict d') /\
    forall k v,
      dict_get d k = Some v ->
      (v = PNone -> dict_get d' k = Some PNone) /\
      (v <> PNone ->
       py_in v null_tokens || py_in v empty_dict_vals = true ->
       dict_get d' k = None).
Proof.
  intros Hi Hs Ht Huniq Hkeys.
  rewrite (main_nothing_ignored load dump source target true so (PDict d)
             Hi Hs Ht).
  cbv zeta.
  assert (Hd : is_dict (normalize (PDict d)) = true)
    by now rewrite normalize_dict.
  rewrite Hd.
  destruct (rendered_target d Huniq Hkeys) as (d' & Hd' & Hget).
  rewrite Hd'. eexists. exists d'. split; [reflexivity|].
  split; [reflexivity|].
  intros k v Hk. rewrite (Hget k), Hk. split.
  - intros ->. reflexivity.
  - intros Hnone Hempty. apply orb_true_iff in Hempty.
    destruct Hempty as [Htoken | Hempty].
    + assert (E : normalize v = PNone).
      { destruct v as [a|l|d0]; [|discriminate Htoken|discriminate Htoken].
        rewrite normalize_atom. unfold normalize_key. now rewrite Htoken. }
      now rewrite E.
    + apply py_in_empty_dict_vals in Hempty.
      destruct Hempty as [->|[->|[->|[->|[->| ->]]]]];
        [contradiction | reflexivity..].
Qed.

Lemma main_ignore_empty_keeps_null_witness :
  exists r d',
    main PyYAMLBlock.load PyYAMLBlock.dump
      ("a: x" ++ PyYAML.newline)
      ("a: null" ++ PyYAML.newline ++ "b: None" ++ PyYAML.newline ++
       "c: []" ++ PyYAML.newline)
      [] true = Ok r /\
    before r = PyYAMLBlock.dump (PDict d') /\
    forall k v,
      dict_get [(AStr "a", PNone); (AStr "b", PStr "None");
                (AStr "c", PList [])] k = Some v ->
      (v = PNone -> dict_get d' k = Some PNone) /\
      (v <> PNone ->
       py_in v null_tokens || py_in v empty_dict_vals = true ->
       dict_get d' k = None).
Proof.
  apply (main_ignore_empty_keeps_null PyYAMLBlock.load PyYAMLBlock.dump
           ("a: x" ++ PyYAML.newline)
           ("a: null" ++ PyYAML.newline ++ "b: None" ++ PyYAML.newline ++
            "c: []" ++ PyYAML.newline)
           (PDict [(AStr "a", PStr "x")])
           [(AStr "a", PNone); (AStr "b", PStr "None");
            (AStr "c", PList [])]);
    [reflexivity | reflexivity | reflexivity | |].
  - cbn [unique_keys dict_get atom_eqb String.eqb Ascii.eqb Bool.eqb].
    repeat split.
  - repeat constructor.
Defined.

(** X21: [main] ends with [fail_json] exactly when one of its three YAML
    texts (the dumped ignore dictionary, the source, the target) fails
    to load; pruning and rendering never do. *)
Theorem main_fails_on_yaml_only
  (load : string -> option pyval) (dump : pyval -> string)
  (source target : string) (ignore_keys : pydict) (ignore_empty : bool) :
  main load dump source target ignore_keys ignore_empty = Raise FailJson <->
  load (dump (normalize (PDict ignore_keys))) = None \/
  load source = None \/ load target = None.
Proof.
  destruct (load (dump (normalize (PDict ignore_keys)))) as [ig|] eqn:Hi;
    [destruct (load source) as [so|] eqn:Hs;
     [destruct (load target) as [ta|] eqn:Ht|]|].
  - rewrite (main_loaded load dump source target ignore_keys ignore_empty
               ig so ta Hi Hs Ht).
    split.
    + intros H.
      destruct (del_ignore_keys_outcome (top_level (normalize so))
                  (top_level (normalize ig))) as [(x & Hx) | Hx];
        rewrite Hx in H; cbn [bind] in H; [|discriminate H].
      destruct (del_ignore_keys_outcome (top_level (normalize ta))
                  (top_level (normalize ig))) as [(y & Hy) | Hy];
        rewrite Hy in H; cbn [bind] in H; discriminate H.
    + intros [H | [H | H]]; discriminate H.
  - split; [auto|]. intros _.
    unfold main, yaml2dict, dict_to_yaml_str.
    rewrite (yaml_str_to_dict_loaded _ _ _ Hi).
    rewrite (yaml_str_to_dict_loaded _ _ _ Hs). cbn [bind].
    unfold yaml_str_to_dict. now rewrite Ht.
  - split; [auto|]. intros _.
    unfold main, yaml2dict, dict_to_yaml_str.
    rewrite (yaml_str_to_dict_loaded _ _ _ Hi). cbn [bind].
    unfold yaml_str_to_dict. now rewrite Hs.
  - split; [auto|]. intros _.
    unfold main, yaml2dict, dict_to_yaml_str.
    unfold yaml_str_to_dict. now rewrite Hi.
Qed.

Lemma Forall_values_dict_set (Q : pyval -> Prop) (d : pydict)
      (k : atom) (v : pyval) :
  Q v -> Forall (fun kv => Q (snd kv)) d ->
  Forall (fun kv => Q (snd kv)) (dict_set d k v).
Proof.
  intros Hv. induction d as [|[k0 v0] d IH]; cbn [dict_set]; intros Hd.
  - constructor; [exact Hv | constructor].
  - inversion Hd; subst. destruct (atom_eqb k0 k).
    + constructor; [exact Hv | assumption].
    + constructor; [assumption | now apply IH].
Qed.

Lemma Forall_values_dict_of (Q : pyval -> Prop) (l : pydict) :
  Forall (fun kv => Q (snd kv)) l ->
  Forall (fun kv => Q (snd kv)) (dict_of l).
Proof.
  unfold dict_of. intros Hl.
  assert (H : forall acc,
             Forall (fun kv => Q (snd kv)) acc ->
             Forall (fun kv => Q (snd kv))
               (fold_left (fun d kv => dict_set d (fst kv) (snd kv)) l acc)).
  { induction Hl as [|[k v] l Hv Hl IH]; intros acc Hacc; [exact Hacc|].
    cbn [fold_left fst snd]. apply IH. now apply Forall_values_dict_set. }
  apply H. constructor.
Qed.

Lemma list_free_normalize (v : pyval) :
  list_free v -> list_free (top_level (normalize v)).
Proof.
  induction v as [a|l IH|d IH] using pyval_ind; intros Hf.
  - rewrite normalize_atom. now destruct (normalize_key a).
  - contradiction.
  - rewrite normalize_dict. cbn [top_level].
    apply list_free_dict in Hf. apply list_free_dict.
    apply Forall_values_dict_of, Forall_map.
    rewrite Forall_forall in *. intros [k x] Hin.
    unfold normalize_item. cbn [fst snd].
    pose proof (IH _ Hin (Hf _ Hin)) as H. cbn [snd] in H.
    destruct x as [a|l|d']; [| |exact H].
    + rewrite normalize_atom. exact I.
    + exact (Hf _ Hin).
Qed.

(** X22: a run whose three YAML texts load and whose ignore dictionary
    contains no list always ends with a diff result: [main] returns, it
    does not crash in pruning. *)
Theorem main_returns
  (load : string -> option pyval) (dump : pyval -> string)
  (source target : string) (ignore_keys : pydict) (ignore_empty : bool)
  (ig so ta : pyval) :
  load (dump (normalize (PDict ignore_keys))) = Some ig ->
  load source = Some so ->
  load target = Some ta ->
  list_free ig ->
  exists r, main load dump source target ignore_keys ignore_empty = Ok r.
Proof.
  intros Hi Hs Ht Hfree.
  rewrite (main_loaded load dump source target ignore_keys ignore_empty
             ig so ta Hi Hs Ht).
  pose proof (list_free_normalize ig Hfree) as Hf.
  destruct (del_ignore_keys_total_del (top_level (normalize so)) _ Hf)
    as (x & ->).
  destruct (del_ignore_keys_total_del (top_level (normalize ta)) _ Hf)
    as (y & ->).
  cbn [bind]. eexists. reflexivity.
Qed.

Lemma main_returns_witness :
  exists r, main PyYAML.load PyYAML.dump "foo" "{}" [] true = Ok r.
Proof.
  apply (main_returns PyYAML.load PyYAML.dump "foo" "{}" [] true
           (PDict []) (PStr "foo") (PDict []));
    first [reflexivity | exact I].
Defined.

(** ** The Ansible module around [main] *)

Lemma and_then_go (m : step unit) (k : unit -> step unit) :
  and_then m k = Go tt <-> m = Go tt /\ k tt = Go tt.
Proof.
  destruct m as [[]|e]; cbn [and_then].
  - split; [now split | now intros [_ H]].
  - split; [discriminate | now intros [H _]].
Qed.

Lemma assert_type_command_ends (module : ansible_module) :
  assert_type_command module = Go tt \/
  exists msg, assert_type_command module = Stop (ExitSkipped msg).
Proof.
  unfold assert_type_command.
  destruct (param_source_type module), (param_target_type module),
    (check_mode module); cbn [and_then]; eauto.
Qed.

Section HostProperties.

Variable path_exists access_read path_isdir : string -> bool.
Variable read_file : string -> string.
Variable shell_exec : string -> Z * string * string.
Variable yaml_load : string -> option pyval.
Variable yaml_dump : pyval -> string.

Local Notation run :=
  (run_module path_exists access_read path_isdir read_file shell_exec
              yaml_load yaml_dump).

(** X23: in check mode a module whose source or target is a command ends
    as skipped and unchanged, naming the source first, whatever the file
    system, the shell and the YAML library are: no file is looked at and
    no command is run. *)
Theorem run_module_check_mode_command (module : ansible_module) :
  check_mode module = true ->
  param_source_type module = TypeCommand \/
  param_target_type module = TypeCommand ->
  run module =
  ExitSkipped
    (match param_source_type module with
     | TypeCommand =>
         "This module does not support check mode when source_type is 'command'."
     | _ =>
         "This module does not support check mode when target_type is 'command'."
     end).
Proof.
  intros Hcheck Hcmd. unfold run_module, assert_type_command.
  rewrite Hcheck.
  destruct (param_source_type module), (param_target_type module);
    try reflexivity; destruct Hcmd; discriminate.
Qed.

Lemma assert_file_passes (name path : string) :
  assert_file path_exists access_read path_isdir name path = Go tt <->
  path_exists path = true /\ access_read path = true /\
  path_isdir path = false.
Proof.
  unfold assert_file.
  destruct (path_exists path), (access_read path), (path_isdir path);
    cbn; split; try discriminate; intuition discriminate.
Qed.

Lemma file_check_passes (name path : string) (t : input_type) :
  match t with
  | TypeFile => assert_file path_exists access_read path_isdir name path
  | _ => Go tt
  end = Go tt <->
  (t = TypeFile ->
   path_exists path = true /\ access_read path = true /\
   path_isdir path = false).
Proof.
  destruct t.
  - split; [discriminate | reflexivity].
  - rewrite assert_file_passes. split; auto.
  - split; [discriminate | reflexivity].
Qed.

(** X24: [assert_type_file] lets the run go on exactly when every input
    of type [file] exists, is readable and is not a directory; inputs of
    the other types are not looked at. *)
Theorem assert_type_file_passes (module : ansible_module) :
  assert_type_file path_exists access_read path_isdir module = Go tt <->
  (param_source_type module = TypeFile ->
   path_exists (param_source module) = true /\
   access_read (param_source module) = true /\
   path_isdir (param_source module) = false) /\
  (param_target_type module = TypeFile ->
   path_exists (param_target module) = true /\
   access_read (param_target module) = true /\
   path_isdir (param_target module) = false).
Proof.
  unfold assert_type_file.
  now rewrite and_then_go, !file_check_passes.
Qed.

(** X25: outside the skipped check-mode runs, a source of type [file]
    that does not exist ends the run with the message
    [source <path> not found], before the target is looked at and before
    anything is read or executed. *)
Theorem run_module_source_not_found (module : ansible_module) :
  assert_type_command module = Go tt ->
  param_source_type module = TypeFile ->
  path_exists (param_source module) = false ->
  run module =
  FailJsonMsg ("source " ++ param_source module ++ " not found").
Proof.
  intros Hcmd Htype Hmissing.
  unfold run_module, assert_type_file, assert_file.
  now rewrite Hcmd, Htype, Hmissing.
Qed.

Lemma assert_type_file_ends (module : ansible_module) :
  assert_type_file path_exists access_read path_isdir module = Go tt \/
  exists msg,
    assert_type_file path_exists access_read path_isdir module =
    Stop (FailJsonMsg msg).
Proof.
  assert (H : forall name path,
             assert_file path_exists access_read path_isdir name path =
             Go tt \/
             exists msg,
               assert_file path_exists access_read path_isdir name path =
               Stop (FailJsonMsg msg)).
  { intros name path. unfold assert_file.
    destruct (path_exists path), (access_read path), (path_isdir path);
      cbn; eauto. }
  unfold assert_type_file.
  destruct (param_source_type module), (param_target_type module);
    cbn [and_then];
    repeat match goal with
           | |- context [assert_file _ _ _ ?n ?p] =>
               destruct (H n p) as [-> | (? & ->)]; cbn [and_then]
           end; eauto.
Qed.

(** X26: a [diff_ignore_keys] that is not a dictionary never leads to a
    diff: the run ends as skipped or with [fail_json], and it ends the
    same way whatever reading a file, running a command and the YAML
    library would give, so neither input is read or executed. *)
Theorem run_module_rejects_ignore_keys (module : ansible_module) :
  is_dict (param_diff_ignore_keys module) = false ->
  match run module with
  | ExitSkipped _ | FailJsonMsg _ => True
  | ExitJson _ | Raised _ => False
  end /\
  forall read_file' shell_exec' yaml_load' yaml_dump',
    run_module path_exists access_read path_isdir read_file' shell_exec'
               yaml_load' yaml_dump' module = run module.
Proof.
  intros Hdict. unfold run_module.
  destruct (assert_type_command_ends module) as [-> | (msg & ->)];
    cbn [and_then]; [|now split].
  destruct (assert_type_file_ends module) as [-> | (msg & ->)];
    cbn [and_then]; [|now split].
  unfold assert_ignore_keys.
  destruct (param_diff_ignore_keys module) as [[| | |]| |];
    try discriminate Hdict; now split.
Qed.

(** X27: when no input is a command and the inputs of type [file] pass
    the file checks, the module is the core diff of the two texts (a
    literal string, or the content of the file), also in check mode. *)
Theorem run_module_is_main (module : ansible_module) (ignore_keys : pydict) :
  param_source_type module <> TypeCommand ->
  param_target_type module <> TypeCommand ->
  assert_type_file path_exists access_read path_isdir module = Go tt ->
  param_diff_ignore_keys module = PDict ignore_keys ->
  run module =
  match main yaml_load yaml_dump
             (match param_source_type module with
              | TypeFile => read_file (param_source module)
              | _ => param_source module
              end)
             (match param_target_type module with
              | TypeFile => read_file (param_target module)
              | _ => param_target module
              end)
             ignore_keys (param_diff_ignore_empty module) with
  | Ok r => ExitJson r
  | Raise e => Raised e
  end.
Proof.
  intros Hs Ht Hfile Hig.
  unfold run_module, assert_type_command, assert_ignore_keys, eval_input.
  rewrite Hfile, Hig. cbn [input_type_of input_data_of is_str is_dict].
  destruct (param_source_type module), (param_target_type module);
    try contradiction; cbn [and_then isinstance_str negb];
    now destruct (main _ _ _ _ _ _).
Qed.

(** X28: outside check mode, a source command that returns a non-zero
    code ends the run with [source command failed: <stderr>]; the target
    is then neither read nor executed and no YAML is parsed. *)
Theorem run_module_source_command_fails
  (module : ansible_module) (ignore_keys : pydict)
  (ret : Z) (stdout stderr : string) :
  check_mode module = false ->
  param_source_type module = TypeCommand ->
  assert_type_file path_exists access_read path_isdir module = Go tt ->
  param_diff_ignore_keys module = PDict ignore_keys ->
  shell_exec (param_source module) = (ret, stdout, stderr) ->
  ret <> 0 ->
  run module = FailJsonMsg ("source command failed: " ++ stderr).
Proof.
  intros Hcheck Htype Hfile Hig Hexec Hret.
  unfold run_module, assert_type_command, assert_ignore_keys, eval_input.
  rewrite Hcheck, Htype, Hfile, Hig.
  cbn [input_type_of input_data_of is_str is_dict isinstance_str negb].
  rewrite Htype.
  destruct (param_target_type module); cbn [and_then];
    rewrite Hexec; apply Z.eqb_neq in Hret; now rewrite Hret.
Qed.

End HostProperties.

Lemma run_module_check_mode_command_witness :
  run_module (fun _ => true) (fun _ => true) (fun _ => false)
             (fun path => path) (fun _ => (0, "", ""))
             PyYAML.load PyYAML.dump
             (mk_module "/etc/hostname" "hostname" TypeFile TypeCommand
                        (PDict []) false true) =
  ExitSkipped
    "This module does not support check mode when target_type is 'command'.".
Proof.
  apply (run_module_check_mode_command
           (fun _ => true) (fun _ => true) (fun _ => false)
           (fun path => path) (fun _ => (0, "", ""))
           PyYAML.load PyYAML.dump
           (mk_module "/etc/hostname" "hostname" TypeFile TypeCommand
                      (PDict []) false true)).
  - reflexivity.
  - now right.
Defined.

Lemma run_module_source_not_found_witness :
  run_module (fun _ => false) (fun _ => true) (fun _ => false)
             (fun path => path) (fun _ => (0, "", ""))
             PyYAML.load PyYAML.dump
             (mk_module "/tmp/a.yml" "/tmp/b.yml" TypeFile TypeFile
                        (PDict []) false true) =
  FailJsonMsg "source /tmp/a.yml not found".
Proof.
  apply (run_module_source_not_found
           (fun _ => false) (fun _ => true) (fun _ => false)
           (fun path => path) (fun _ => (0, "", ""))
           PyYAML.load PyYAML.dump
           (mk_module "/tmp/a.yml" "/tmp/b.yml" TypeFile TypeFile
                      (PDict []) false true)); reflexivity.
Defined.

Lemma run_module_rejects_ignore_keys_witness :
  match run_module (fun _ => true) (fun _ => true) (fun _ => false)
                   (fun path => path) (fun _ => (0, "", ""))
                   PyYAML.load PyYAML.dump
                   (mk_module "foo" "bar" TypeString TypeString
                              (PList []) false false) with
  | ExitSkipped _ | FailJsonMsg _ => True
  | ExitJson _ | Raised _ => False
  end.
Proof.
  apply (run_module_rejects_ignore_keys
           (fun _ => true) (fun _ => true) (fun _ => false)
           (fun path => path) (fun _ => (0, "", ""))
           PyYAML.load PyYAML.dump
           (mk_module "foo" "bar" TypeString TypeString
                      (PList []) false false) eq_refl).
Defined.

Lemma run_module_is_main_witness :
  run_module (fun _ => true) (fun _ => true) (fun _ => false)
             (fun path => "foo") (fun _ => (0, "", ""))
             PyYAML.load PyYAML.dump
             (mk_module "/tmp/a.yml" "bar" TypeFile TypeString
                        (PDict []) false true) =
  ExitJson {| before := "{}" ++ PyYAML.newline;
              after := "{}" ++ PyYAML.newline;
              changed := false |}.
Proof.
  apply (run_module_is_main
           (fun _ => true) (fun _ => true) (fun _ => false)
           (fun path => "foo") (fun _ => (0, "", ""))
           PyYAML.load PyYAML.dump
           (mk_module "/tmp/a.yml" "bar" TypeFile TypeString
                      (PDict []) false true) []);
    first [discriminate | reflexivity].
Defined.

Lemma run_module_source_command_fails_witness :
  run_module (fun _ => true) (fun _ => true) (fun _ => false)
             (fun path => path) (fun _ => (1, "", "boom"))
             PyYAML.load PyYAML.dump
             (mk_module "false" "bar" TypeCommand TypeString
                        (PDict []) false false) =
  FailJsonMsg "source command failed: boom".
Proof.
  apply (run_module_source_command_fails
           (fun _ => true) (fun _ => true) (fun _ => false)
           (fun path => path) (fun _ => (1, "", "boom"))
           PyYAML.load PyYAML.dump
           (mk_module "false" "bar" TypeCommand TypeString
                      (PDict []) false false) [] 1 "" "boom");
    first [reflexivity | discriminate].
Defined.


(** ** [SortedDict] *)

Lemma In_insert_sorted (x y : string * pyval) (l : kwargs) :
  In x (insert_sorted y l) <-> x = y \/ In x l.
Proof.
  induction l as [|z l IH]; cbn [insert_sorted In].
  - intuition.
  - destruct (String.leb (fst y) (fst z)); cbn [In]; [intuition|].
    rewrite IH. intuition.
Qed.

Lemma In_sorted_items (x : string * pyval) (l : kwargs) :
  In x (sorted_items l) <-> In x l.
Proof.
  induction l as [|y l IH]; [reflexivity|].
  cbn [sorted_items fold_right]. fold (sorted_items l).
  rewrite In_insert_sorted, IH. cbn [In]. intuition.
Qed.

Lemma In_names_insert_sorted (n : string) (y : string * pyval) (l : kwargs) :
  In n (map fst (insert_sorted y l)) <-> n = fst y \/ In n (map fst l).
Proof.
  rewrite !in_map_iff. split.
  - intros (x & <- & Hx). rewrite In_insert_sorted in Hx.
    destruct Hx as [-> | Hx]; [now left|]. right. now exists x.
  - intros [-> | (x & <- & Hx)].
    + exists y. split; [reflexivity|]. apply In_insert_sorted. now left.
    + exists x. split; [reflexivity|]. apply In_insert_sorted. now right.
Qed.

Lemma NoDup_names_insert_sorted (y : string * pyval) (l : kwargs) :
  ~ In (fst y) (map fst l) -> NoDup (map fst l) ->
  NoDup (map fst (insert_sorted y l)).
Proof.
  induction l as [|z l IH]; cbn [insert_sorted map]; intros Hy Hl.
  - now constructor.
  - destruct (String.leb (fst y) (fst z)); cbn [map].
    + now constructor.
    + inversion Hl as [|? ? Hz Hl']; subst. constructor.
      * rewrite In_names_insert_sorted. intros [E | H]; [|now apply Hz].
        apply Hy. left. now symmetry.
      * apply IH; [|exact Hl']. intros H. apply Hy. now right.
Qed.

Lemma NoDup_names_sorted_items (l : kwargs) :
  NoDup (map fst l) -> NoDup (map fst (sorted_items l)).
Proof.
  induction l as [|y l IH]; cbn [map]; intros Hl; [constructor|].
  inversion Hl as [|? ? Hy Hl']; subst.
  cbn [sorted_items fold_right]. fold (sorted_items l).
  apply NoDup_names_insert_sorted; [|now apply IH].
  intros H. apply Hy. apply in_map_iff in H.
  destruct H as (x & E & Hx). rewrite In_sorted_items in Hx.
  apply in_map_iff. now exists x.
Qed.

Lemma length_insert_sorted (y : string * pyval) (l : kwargs) :
  List.length (insert_sorted y l) = S (List.length l).
Proof.
  induction l as [|z l IH]; [reflexivity|]. cbn [insert_sorted].
  destruct (String.leb (fst y) (fst z)); cbn [List.length]; now rewrite ?IH.
Qed.

Lemma length_sorted_items (l : kwargs) :
  List.length (sorted_items l) = List.length l.
Proof.
  induction l as [|y l IH]; [reflexivity|].
  cbn [sorted_items fold_right]. fold (sorted_items l).
  now rewrite length_insert_sorted, IH.
Qed.

Lemma names_ascending_insert_sorted (y : string * pyval) (l : kwargs) :
  names_ascending l -> names_ascending (insert_sorted y l).
Proof.
  destruct y as [c vc].
  induction l as [|[a va] l IH]; cbn [insert_sorted fst]; intros Hl.
  - cbn. auto.
  - destruct (String.leb c a) eqn:E.
    + cbn [names_ascending] in *. auto.
    + destruct Hl as [Hhead Hl]. specialize (IH Hl).
      assert (Hac : String.leb a c = true).
      { destruct (String.leb_total a c) as [H | H]; [exact H|].
        rewrite H in E. discriminate. }
      destruct l as [|[b vb] l].
      * cbn. auto.
      * cbn [insert_sorted fst] in *.
        destruct (String.leb c b); cbn [names_ascending] in *; auto.
Qed.

Lemma names_ascending_sorted_items (l : kwargs) :
  names_ascending (sorted_items l).
Proof.
  induction l as [|y l IH]; [exact I|].
  cbn [sorted_items fold_right]. fold (sorted_items l).
  now apply names_ascending_insert_sorted.
Qed.

Lemma ascending_of_names (l : kwargs) :
  forall d,
    map fst d = map (fun kv => AStr (fst kv)) l ->
    names_ascending l -> ascending d.
Proof.
  induction l as [|[a va] l IH]; intros d Hd Hl.
  - destruct d; [exact I | discriminate].
  - destruct d as [|[k x] d]; [discriminate|].
    cbn [map fst] in Hd. injection Hd as -> Hd.
    destruct Hl as [Hhead Hl]. cbn [ascending].
    split; [|now apply IH].
    destruct l as [|[b vb] l]; destruct d as [|[k' x'] d];
      try discriminate; [exact I|].
    cbn [map fst] in Hd. injection Hd as -> _. exact Hhead.
Qed.

Lemma SortedDict_loop (fuel : nat) (kw : kwargs) :
  SortedDict (S fuel) kw = sorted_loop fuel (sorted_items kw) [].
Proof. reflexivity. Qed.

Lemma kwargs_depth_le (kw : kwargs) (n : nat) :
  (kwargs_depth kw <= n)%nat <->
  Forall (fun kv => (dict_depth (snd kv) <= n)%nat) kw.
Proof.
  induction kw as [|[k x] kw IH]; cbn [kwargs_depth].
  - split; [constructor | intros _; apply Nat.le_0_l].
  - rewrite Nat.max_lub_iff, IH. split.
    + intros [Hx Hkw]. now constructor.
    + intros H. inversion H; subst. now split.
Qed.

Lemma keywords_items (d : pydict) :
  forall kw,
    keywords d = Some kw ->
    map fst d = map (fun kv => AStr (fst kv)) kw /\ map snd d = map snd kw.
Proof.
  induction d as [|[k x] d IH]; intros kw; cbn [keywords].
  - intros H. injection H as <-. now split.
  - destruct k as [| | |name]; try discriminate.
    destruct (String.eqb name "self"); [discriminate|].
    destruct (keywords d) as [kw'|]; [|discriminate].
    intros H. injection H as <-. destruct (IH kw' eq_refl) as [Hk Hv].
    cbn [map fst snd]. now rewrite Hk, Hv.
Qed.

Lemma keywords_depth (d : pydict) (kw : kwargs) :
  keywords d = Some kw -> dict_depth (PDict d) = S (kwargs_depth kw).
Proof.
  intros H. apply keywords_items in H. destruct H as [_ Hv].
  cbn [dict_depth]. f_equal. revert kw Hv.
  induction d as [|[k x] d IH]; intros [|[k' x'] kw] Hv;
    try discriminate; [reflexivity|].
  cbn [map snd] in Hv. injection Hv as -> Hv.
  cbn [kwargs_depth]. now rewrite (IH kw Hv).
Qed.

Lemma keywords_fresh (d : pydict) (name : string) :
  forall kw,
    keywords d = Some kw -> dict_get d (AStr name) = None ->
    ~ In name (map fst kw).
Proof.
  induction d as [|[k x] d IH]; intros kw; cbn [keywords dict_get].
  - intros H _. injection H as <-. exact (fun H => H).
  - destruct k as [| | |n]; try discriminate.
    destruct (String.eqb n "self"); [discriminate|].
    destruct (keywords d) as [kw'|]; [|discriminate].
    intros H. injection H as <-. cbn [atom_eqb].
    destruct (String.eqb n name) eqn:E; [discriminate|].
    intros Hget [Heq | Hin].
    + cbn [fst] in Heq. subst. now rewrite String.eqb_refl in E.
    + now apply (IH kw' eq_refl Hget).
Qed.

Lemma keywords_well_keyed (d : pydict) :
  forall kw,
    keywords d = Some kw -> well_keyed (PDict d) ->
    NoDup (map fst kw) /\ Forall (fun kv => well_keyed (snd kv)) kw.
Proof.
  induction d as [|[k x] d IH]; intros kw Hkw Hwk.
  - injection Hkw as <-. split; constructor.
  - apply well_keyed_dict in Hwk. destruct Hwk as [[Hfresh Huniq] Hvals].
    inversion Hvals as [|? ? Hx Hd]; subst. cbn [snd] in Hx.
    pose proof Hkw as Hkw0. cbn [keywords] in Hkw.
    destruct k as [| | |n]; try discriminate.
    destruct (String.eqb n "self"); [discriminate|].
    destruct (keywords d) as [kw'|] eqn:Hd'; [|discriminate].
    injection Hkw as <-.
    destruct (IH kw' eq_refl) as [Hnd Hwk'];
      [apply well_keyed_dict; now split|].
    cbn [map fst]. split.
    + constructor; [|exact Hnd]. now apply (keywords_fresh d n kw' Hd').
    + now constructor.
Qed.

Lemma sorted_tree_dict (d : pydict) :
  sorted_tree (PDict d) <->
  ascending d /\ Forall (fun kv => sorted_tree (snd kv)) d.
Proof.
  cbn [sorted_tree]. apply and_iff_compat_l.
  induction d as [|[k x] d IH].
  - split; auto.
  - rewrite IH. split.
    + intros [Hx Hl]. now constructor.
    + intros H. inversion H; subst. now split.
Qed.

Lemma SortedDict_spec (fuel : nat) :
  forall kw,
    (kwargs_depth kw < fuel)%nat ->
    NoDup (map fst kw) ->
    Forall (fun kv => well_keyed (snd kv)) kw ->
    SortedDict fuel kw = TypeError \/
    exists d,
      SortedDict fuel kw = SortedTo d /\
      sorted_tree (PDict d) /\
      map fst d = map (fun kv => AStr (fst kv)) (sorted_items kw) /\
      (forall k v, In (k, v) kw -> is_dict v = false -> In (AStr k, v) d).
Proof.
  induction fuel as [|fuel IHfuel]; intros kw Hdepth Hnodup Hwk.
  - inversion Hdepth.
  - assert (Hloop : forall items self,
               NoDup (map fst items) ->
               (forall kv, In kv items ->
                           dict_get self (AStr (fst kv)) = None) ->
               Forall (fun kv => (dict_depth (snd kv) <= fuel)%nat) items ->
               Forall (fun kv => well_keyed (snd kv)) items ->
               sorted_loop fuel items self = TypeError \/
               exists conv,
                 sorted_loop fuel items self = SortedTo (self ++ conv)%list /\
                 map fst conv = map (fun kv => AStr (fst kv)) items /\
                 Forall (fun kv => sorted_tree (snd kv)) conv /\
                 (forall k v, In (k, v) items -> is_dict v = false ->
                              In (AStr k, v) conv)).
    { induction items as [|[key value] rest IHrest];
        intros self Hnd Hfresh Hd Hw.
      - right. exists []. rewrite app_nil_r.
        repeat split; [constructor | intros k v []].
      - inversion Hnd as [|? ? Hkey Hnd']; subst.
        inversion Hd as [|? ? Hdv Hd']; subst.
        inversion Hw as [|? ? Hwv Hw']; subst.
        cbn [fst snd] in Hkey, Hdv, Hwv.
        assert (Hstep : forall x,
                   sorted_tree x ->
                   (is_dict value = false -> x = value) ->
                   sorted_loop fuel rest (dict_set self (AStr key) x) =
                   TypeError \/
                   exists conv,
                     sorted_loop fuel rest (dict_set self (AStr key) x) =
                     SortedTo (self ++ conv)%list /\
                     map fst conv =
                     map (fun kv => AStr (fst kv)) ((key, value) :: rest) /\
                     Forall (fun kv => sorted_tree (snd kv)) conv /\
                     (forall k v, In (k, v) ((key, value) :: rest) ->
                                  is_dict v = false -> In (AStr k, v) conv)).
        { intros x Hx Hsame.
          rewrite dict_set_fresh
            by (apply (Hfresh (key, value)); now left).
          destruct (IHrest (self ++ [(AStr key, x)])%list Hnd')
            as [Herr | (conv & Hres & Hkeys & Hsorted & Hkeep)];
            [ | exact Hd' | exact Hw' | now left | ].
          - intros kv Hin. rewrite dict_get_app.
            rewrite (Hfresh kv (or_intror Hin)). cbn [dict_get atom_eqb].
            destruct (String.eqb key (fst kv)) eqn:E; [|reflexivity].
            apply String.eqb_eq in E. subst key. exfalso. apply Hkey.
            apply in_map_iff. now exists kv.
          - right. exists ((AStr key, x) :: conv).
            rewrite Hres, <- app_assoc. cbn [app map fst].
            rewrite Hkeys. repeat split.
            + now constructor.
            + intros k v [Heq | Hin] Hv.
              * injection Heq as <- <-. left. now rewrite (Hsame Hv).
              * right. now apply Hkeep. }
        cbn [sorted_loop]. fold (sorted_loop fuel).
        destruct value as [a|l|d]; try (apply Hstep; [exact I | auto]).
        destruct (keywords d) as [kw'|] eqn:Hkw; [|now left].
        destruct (keywords_well_keyed d kw' Hkw Hwv) as [Hnd'' Hw''].
        rewrite (keywords_depth d kw' Hkw) in Hdv.
        destruct (IHfuel kw' Hdv Hnd'' Hw'')
          as [-> | (sd & -> & Hsd & _)]; [now left|].
        apply Hstep; [exact Hsd | discriminate]. }
    rewrite SortedDict_loop.
    destruct (Hloop (sorted_items kw) [])
      as [Herr | (conv & Hres & Hkeys & Hsorted & Hkeep)].
    + now apply NoDup_names_sorted_items.
    + reflexivity.
    + apply Forall_forall. intros kv Hin. rewrite In_sorted_items in Hin.
      apply Nat.lt_succ_r, kwargs_depth_le in Hdepth.
      rewrite Forall_forall in Hdepth. now apply Hdepth.
    + apply Forall_forall. intros kv Hin. rewrite In_sorted_items in Hin.
      rewrite Forall_forall in Hwk. now apply Hwk.
    + now left.
    + right. exists conv. cbn [app] in Hres.
      split; [exact Hres|]. split; [|split; [exact Hkeys|]].
      * apply sorted_tree_dict. split; [|exact Hsorted].
        apply (ascending_of_names (sorted_items kw) conv Hkeys).
        apply names_ascending_sorted_items.
      * intros k v Hin. apply Hkeep. now rewrite In_sorted_items.
Qed.

(** X29: given fuel for its nesting, [SortedDict] either raises
    [TypeError] (a nested dictionary with a key that cannot be a keyword)
    or returns a dictionary whose keys ascend, and so do the keys of every
    dictionary reached through values of dictionaries; it never runs out
    of fuel.  Keyword arguments are distinct, and so are the keys of the
    nested dictionaries. *)
Theorem SortedDict_sorted (fuel : nat) (kw : kwargs) :
  (kwargs_depth kw < fuel)%nat ->
  NoDup (map fst kw) ->
  Forall (fun kv => well_keyed (snd kv)) kw ->
  match SortedDict fuel kw with
  | SortedTo d => sorted_tree (PDict d)
  | TypeError => True
  | NoFuel => False
  end.
Proof.
  intros Hdepth Hnodup Hwk.
  destruct (SortedDict_spec fuel kw Hdepth Hnodup Hwk)
    as [-> | (d & -> & Hsorted & _)]; [exact I | exact Hsorted].
Qed.

Lemma SortedDict_sorted_witness :
  SortedDict 2 [("b", PStr "1");
                ("a", PDict [(AStr "z", PNone); (AStr "y", PStr "2")])] =
  SortedTo [(AStr "a", PDict [(AStr "y", PStr "2"); (AStr "z", PNone)]);
            (AStr "b", PStr "1")] /\
  match SortedDict 2 [("b", PStr "1");
                      ("a", PDict [(AStr "z", PNone); (AStr "y", PStr "2")])]
  with
  | SortedTo d => sorted_tree (PDict d)
  | TypeError => True
  | NoFuel => False
  end.
Proof.
  split; [reflexivity|].
  apply (SortedDict_sorted 2
           [("b", PStr "1");
            ("a", PDict [(AStr "z", PNone); (AStr "y", PStr "2")])]).
  - cbn. lia.
  - repeat constructor; cbn; intuition discriminate.
  - repeat constructor; cbn; auto.
Defined.

(** X30: [SortedDict] loses nothing: when it returns, the keys of the
    result are exactly the keyword names, in ascending order, and every
    value that is not a dictionary is bound to its name unchanged (a list
    is not entered, so dictionaries inside lists stay as they are). *)
Theorem SortedDict_keeps_items (fuel : nat) (kw : kwargs) (d : pydict) :
  (kwargs_depth kw < fuel)%nat ->
  NoDup (map fst kw) ->
  Forall (fun kv => well_keyed (snd kv)) kw ->
  SortedDict fuel kw = SortedTo d ->
  map fst d = map (fun kv => AStr (fst kv)) (sorted_items kw) /\
  List.length d = List.length kw /\
  (forall k v, In (k, v) kw -> is_dict v = false -> In (AStr k, v) d).
Proof.
  intros Hdepth Hnodup Hwk Hres.
  destruct (SortedDict_spec fuel kw Hdepth Hnodup Hwk)
    as [Herr | (d' & Hd' & _ & Hkeys & Hkeep)];
    rewrite Hres in *; [discriminate|].
  injection Hd' as <-. split; [exact Hkeys|]. split; [|exact Hkeep].
  rewrite <- (length_map fst d), Hkeys, length_map.
  apply length_sorted_items.
Qed.

Lemma SortedDict_keeps_items_witness :
  map fst [(AStr "a", PList [PDict [(AStr "q", PNone); (AStr "p", PNone)]]);
           (AStr "b", PStr "1")] =
  map (fun kv => AStr (fst kv))
      (sorted_items
         [("b", PStr "1");
          ("a", PList [PDict [(AStr "q", PNone); (AStr "p", PNone)]])]) /\
  List.length
    [(AStr "a", PList [PDict [(AStr "q", PNone); (AStr "p", PNone)]]);
     (AStr "b", PStr "1")] =
  List.length
    [("b", PStr "1");
     ("a", PList [PDict [(AStr "q", PNone); (AStr "p", PNone)]])] /\
  (forall k v,
      In (k, v)
         [("b", PStr "1");
          ("a", PList [PDict [(AStr "q", PNone); (AStr "p", PNone)]])] ->
      is_dict v = false ->
      In (AStr k, v)
         [(AStr "a", PList [PDict [(AStr "q", PNone); (AStr "p", PNone)]]);
          (AStr "b", PStr "1")]).
Proof.
  apply (SortedDict_keeps_items 1
           [("b", PStr "1");
            ("a", PList [PDict [(AStr "q", PNone); (AStr "p", PNone)]])]).
  - cbn. lia.
  - repeat constructor; cbn; intuition discriminate.
  - repeat constructor; cbn; auto.
  - reflexivity.
Defined.

